(** * Rule-based grammar classifier of [grammer.py] (class FinalGrammarAnalyzer)

    A shallow embedding of the five analyses that [analyze_grammar] runs
    over a parsed sentence (tense, voice, clause structure, subject-verb
    agreement, article usage), followed by the properties of the
    specification that concern them.  Module [Context] embeds the text
    handling of [context.py] (class ContextAnalyzer) around the external
    translation model.

    Modelling conventions.
    - A spaCy [Doc] is a list of [Token] records holding the attributes the
      analyser reads: [text], [pos_], [tag_], [dep_], [i], [head] and
      [morph.get("Number")].
    - Python's [doc[k]] is [Py.getitem]: negative indices count from the
      end and an index out of range raises [IndexError].  Code that can
      raise lives in the error monad [Py.exc].
    - Strings are UTF-8 byte strings.  [str.lower] maps the ASCII capitals
      and U+212A KELVIN SIGN to their ASCII small letter; every other
      character has a lower case outside ASCII and its bytes are kept, so
      that comparisons with the ASCII words of the source come out as in
      Python.
    - A token object is truthy (spaCy tokens have non-empty text), so
      [if next_token and ...] is a test against [None]. *)

From Stdlib Require Import String Ascii List ZArith Bool Lia Permutation.
Import ListNotations.
Local Open Scope string_scope.
Local Open Scope Z_scope.

(* ================================================================== *)
(** ** Python primitives *)

Module Py.

Inductive error : Type := IndexError.

(** Result of a computation that may raise. *)
Inductive exc (A : Type) : Type :=
| Ret (a : A)
| Raise (e : error).
Arguments Ret {A} a.
Arguments Raise {A} e.

Definition bind {A B : Type} (c : exc A) (k : A -> exc B) : exc B :=
  match c with
  | Ret a => k a
  | Raise e => Raise e
  end.

(** [c.lower()] on one character. *)
Definition lower_ascii (c : ascii) : ascii :=
  let n := nat_of_ascii c in
  if (Nat.leb 65 n && Nat.leb n 90)%bool then ascii_of_nat (n + 32) else c.

(** The three bytes E2 84 AA encode U+212A KELVIN SIGN, the one character
    outside ASCII whose lower case is an ASCII letter ([k]). *)
Definition is_kelvin (c c1 c2 : ascii) : bool :=
  (Nat.eqb (nat_of_ascii c) 226 && Nat.eqb (nat_of_ascii c1) 132
   && Nat.eqb (nat_of_ascii c2) 170)%bool.

(** [s.lower()]: ASCII capitals and the Kelvin sign go to their small
    letter.  The other cased characters have a lower case outside ASCII;
    their bytes are left as they are, which no test against an ASCII word
    can tell apart. *)
Fixpoint lower (s : string) : string :=
  match s with
  | EmptyString => EmptyString
  | String c r =>
      match r with
      | String c1 (String c2 r') =>
          if is_kelvin c c1 c2 then String "k"%char (lower r')
          else String (lower_ascii c) (lower r)
      | _ => String (lower_ascii c) (lower r)
      end
  end.

(** [x in [a, b, ...]] for strings. *)
Definition str_in (x : string) (l : list string) : bool :=
  existsb (String.eqb x) l.

(** [sub in s] for strings: [sub] occurs in [s] as a substring. *)
Fixpoint contains (sub s : string) : bool :=
  if String.prefix sub s then true
  else match s with
       | EmptyString => false
       | String _ r => contains sub r
       end.

(** [any(p(x) for x in l)] *)
Definition any {A : Type} (p : A -> bool) (l : list A) : bool := existsb p l.

(** [l[k]] on a list of length [n]. *)
Definition getitem {A : Type} (l : list A) (k : Z) : exc A :=
  let n := Z.of_nat (length l) in
  let k' := if k <? 0 then k + n else k in
  if ((k' <? 0) || (n <=? k'))%bool then Raise IndexError
  else match nth_error l (Z.to_nat k') with
       | Some a => Ret a
       | None => Raise IndexError
       end.

(** [a == b] on lists of strings. *)
Fixpoint list_eqb (a b : list string) : bool :=
  match a, b with
  | [], [] => true
  | x :: a', y :: b' => (String.eqb x y && list_eqb a' b')%bool
  | _, _ => false
  end.

End Py.

Import Py.

Notation "x <- c ;; k" := (Py.bind c (fun x => k))
  (at level 61, c at next level, right associativity).

(** [a == b] on strings. *)
Notation "a == b" := (String.eqb a b) (at level 70, no associativity).

(* ================================================================== *)
(** ** Parsed sentences *)

(** The attributes of a spaCy token that the analyser reads.  [head] is the
    position of the governing token; [number] is [morph.get("Number")],
    the empty list when the feature is absent. *)
Record Token : Type := mkToken {
  text : string;
  pos_ : string;
  tag_ : string;
  dep_ : string;
  i : Z;
  head : nat;
  number : list string
}.

Definition Doc : Type := list Token.

(** [len(doc)] *)
Definition len (doc : Doc) : Z := Z.of_nat (length doc).

(** [token.head]: the governing token.  In a spaCy parse [head] is always
    a position of the sentence and the root is its own head; the lookup
    falls back on the token itself. *)
Definition token_head (doc : Doc) (token : Token) : Token :=
  nth (head token) doc token.

(** [token.children]: the tokens of the sentence governed by [token], the
    token itself (a root) excluded. *)
Definition children (doc : Doc) (token : Token) : list Token :=
  filter (fun c => ((Z.of_nat (head c) =? i token) && negb (i c =? i token))%bool) doc.

(** [doc[token.i + 1] if token.i + 1 < len(doc) else None] *)
Definition next_token (doc : Doc) (token : Token) : exc (option Token) :=
  if i token + 1 <? len doc
  then (x <- getitem doc (i token + 1) ;; Ret (Some x))
  else Ret None.

(** [doc[token.i - 1] if token.i > 0 else None] *)
Definition prev_token (doc : Doc) (token : Token) : exc (option Token) :=
  if i token >? 0
  then (x <- getitem doc (i token - 1) ;; Ret (Some x))
  else Ret None.

(** [token.pos_ in ["VERB", "AUX"]] *)
Definition is_verb (token : Token) : bool :=
  str_in (pos_ token) ["VERB"; "AUX"].

(** The sentence invariant: [i] is the position of the token. *)
Fixpoint wf_from (k : Z) (doc : Doc) : bool :=
  match doc with
  | [] => true
  | t :: rest => ((i t =? k) && wf_from (k + 1) rest)%bool
  end.

Definition wf_doc (doc : Doc) : Prop := wf_from 0 doc = true.

(** Out-of-range-safe positional lookup, as the sentence data model
    describes it: [None] outside the sentence. *)
Definition token_at (doc : Doc) (k : Z) : option Token :=
  if k <? 0 then None else nth_error doc (Z.to_nat k).

Definition following (doc : Doc) (token : Token) : option Token :=
  token_at doc (i token + 1).

Definition preceding (doc : Doc) (token : Token) : option Token :=
  token_at doc (i token - 1).

(* ================================================================== *)
(** ** Result categories *)

(** Return values of [_analyze_tense]. *)
Inductive Tense : Type :=
| PresentPerfectProgressive
| PastPerfectProgressive
| PresentProgressive
| PastProgressive
| PresentPerfect
| PastPerfect
| PresentPassive
| PastPassive
| SimplePast
| SimplePresent
| Unknown.

(** The string the source returns for each category. *)
Definition tense_label (t : Tense) : string :=
  match t with
  | PresentPerfectProgressive => "현재 완료 진행형"
  | PastPerfectProgressive => "과거 완료 진행형"
  | PresentProgressive => "현재 진행형"
  | PastProgressive => "과거 진행형"
  | PresentPerfect => "현재 완료형"
  | PastPerfect => "과거 완료형"
  | PresentPassive => "현재 수동태"
  | PastPassive => "과거 수동태"
  | SimplePast => "단순 과거형"
  | SimplePresent => "단순 현재형"
  | Unknown => "알 수 없음"
  end.

(** Return values of [_analyze_voice]. *)
Inductive Voice : Type := Passive | Active.

Definition voice_label (v : Voice) : string :=
  match v with
  | Passive => "수동태"
  | Active => "능동태"
  end.

(** Return values of [_analyze_structure]. *)
Inductive Structure : Type := SVO | SV | Other.

Definition structure_label (s : Structure) : string :=
  match s with
  | SVO => "SVO"
  | SV => "SV"
  | Other => "기타"
  end.

(* ================================================================== *)
(** ** [_analyze_tense] *)

(** The local variables of the scanning loop. *)
Record ScanState : Type := mkScan {
  aux_verbs : list (string * string);
  main_verbs : list (string * string);
  all_verb_tokens : list Token;
  has_ing_form : bool;
  has_past_participle : bool;
  has_been : bool
}.

Definition scan_init : ScanState := mkScan [] [] [] false false false.

Definition add_aux (st : ScanState) (v : string * string) : ScanState :=
  mkScan (aux_verbs st ++ [v]) (main_verbs st) (all_verb_tokens st)
         (has_ing_form st) (has_past_participle st) (has_been st).

Definition add_main (st : ScanState) (v : string * string) : ScanState :=
  mkScan (aux_verbs st) (main_verbs st ++ [v]) (all_verb_tokens st)
         (has_ing_form st) (has_past_participle st) (has_been st).

Definition add_verb_token (st : ScanState) (t : Token) : ScanState :=
  mkScan (aux_verbs st) (main_verbs st) (all_verb_tokens st ++ [t])
         (has_ing_form st) (has_past_participle st) (has_been st).

Definition set_ing (st : ScanState) : ScanState :=
  mkScan (aux_verbs st) (main_verbs st) (all_verb_tokens st)
         true (has_past_participle st) (has_been st).

Definition set_past_participle (st : ScanState) : ScanState :=
  mkScan (aux_verbs st) (main_verbs st) (all_verb_tokens st)
         (has_ing_form st) true (has_been st).

Definition set_been (st : ScanState) : ScanState :=
  mkScan (aux_verbs st) (main_verbs st) (all_verb_tokens st)
         (has_ing_form st) (has_past_participle st) true.

(** Lines 32-37: the flags read off the token's own tag. *)
Definition scan_flags (st : ScanState) (token : Token) : ScanState :=
  if tag_ token == "VBG" then set_ing st
  else if tag_ token == "VBN" then
    let st := set_past_participle st in
    if lower (text token) == "been" then set_been st else st
  else st.

(** Lines 39-57: the token goes to [aux_verbs] or to [main_verbs]. *)
Definition scan_bucket (doc : Doc) (st : ScanState) (token : Token)
  : exc ScanState :=
  if str_in (lower (text token)) ["'s"] then
    nxt <- next_token doc token ;;
    if match nxt with Some n => tag_ n == "VBG" | None => false end then
      Ret (set_ing (add_aux st ("is", "VBZ")))
    else if match nxt with Some n => lower (text n) == "been" | None => false end then
      Ret (add_aux st ("has", "VBZ"))
    else
      Ret (add_aux st ("has", "VBZ"))
  else if str_in (lower (text token)) ["'ve"] then
    Ret (add_aux st ("have", "VBP"))
  else if str_in (lower (text token)) ["'m"] then
    Ret (add_aux st ("am", "VBP"))
  else if str_in (lower (text token)) ["'re"] then
    Ret (add_aux st ("are", "VBP"))
  else if dep_ token == "aux" then
    Ret (add_aux st (lower (text token), tag_ token))
  else
    Ret (add_main st (lower (text token), tag_ token)).

(** Body of [for token in doc] (lines 29-57). *)
Definition scan_token (doc : Doc) (st : ScanState) (token : Token)
  : exc ScanState :=
  if is_verb token then
    scan_bucket doc (scan_flags (add_verb_token st token) token) token
  else Ret st.

(** The loop over the tokens still to visit. *)
Fixpoint scan_loop (doc : Doc) (st : ScanState) (todo : list Token)
  : exc ScanState :=
  match todo with
  | [] => Ret st
  | token :: rest => st' <- scan_token doc st token ;; scan_loop doc st' rest
  end.

Definition tense_scan (doc : Doc) : exc ScanState :=
  scan_loop doc scan_init doc.

(** [any(verb in forms for verb, _ in aux_verbs)] *)
Definition any_aux (forms : list string) (st : ScanState) : bool :=
  any (fun p => str_in (fst p) forms) (aux_verbs st).

(** [any(verb == "had" for verb, _ in aux_verbs)] *)
Definition any_had (st : ScanState) : bool :=
  any (fun p => fst p == "had") (aux_verbs st).

(** [any(token.tag_ in tags for token in all_verb_tokens)] *)
Definition any_tag (tags : list string) (st : ScanState) : bool :=
  any (fun t => str_in (tag_ t) tags) (all_verb_tokens st).

(** The [if] blocks of lines 60-88, one definition per block: [Some r] when
    the block executes [return r], [None] when control leaves the block. *)
Definition block_perfect_progressive (st : ScanState) : option Tense :=
  if (has_been st && has_ing_form st)%bool then
    if any_aux ["have"; "has"; "'ve"; "'s"] st then Some PresentPerfectProgressive
    else if any_had st then Some PastPerfectProgressive
    else None
  else None.

Definition block_progressive (st : ScanState) : option Tense :=
  if has_ing_form st then
    if any_aux ["am"; "is"; "are"; "'m"; "'s"; "'re"] st then Some PresentProgressive
    else if any_aux ["was"; "were"] st then Some PastProgressive
    else None
  else None.

Definition block_perfect (st : ScanState) : option Tense :=
  if has_past_participle st then
    if any_aux ["have"; "has"; "'ve"; "'s"] st then Some PresentPerfect
    else if any_had st then Some PastPerfect
    else None
  else None.

Definition block_passive (st : ScanState) : option Tense :=
  if (has_past_participle st && negb (has_been st))%bool then
    if any_aux ["am"; "is"; "are"] st then Some PresentPassive
    else if any_aux ["was"; "were"] st then Some PastPassive
    else None
  else None.

Definition block_simple_past (st : ScanState) : option Tense :=
  if any (fun t => tag_ t == "VBD") (all_verb_tokens st) then Some SimplePast
  else None.

Definition block_simple_present (st : ScanState) : option Tense :=
  if any_tag ["VBP"; "VBZ"] st then Some SimplePresent else None.

(** Sequencing of statements, the first executed [return] ending the
    function. *)
Definition or_else {A : Type} (r : option A) (k : option A) : option A :=
  match r with
  | Some a => Some a
  | None => k
  end.

(** Lines 59-90. *)
Definition tense_of_scan (st : ScanState) : Tense :=
  match
    or_else (block_perfect_progressive st)
   (or_else (block_progressive st)
   (or_else (block_perfect st)
   (or_else (block_passive st)
   (or_else (block_simple_past st)
            (block_simple_present st)))))
  with
  | Some r => r
  | None => Unknown
  end.

Definition _analyze_tense (doc : Doc) : exc Tense :=
  st <- tense_scan doc ;;
  Ret (tense_of_scan st).

(* ================================================================== *)
(** ** [_analyze_voice] *)

(** [[(token.text.lower(), token.tag_) for token in doc
      if token.pos_ in ["VERB", "AUX"]]] *)
Definition verb_pattern (doc : Doc) : list (string * string) :=
  map (fun token => (lower (text token), tag_ token)) (filter is_verb doc).

Definition be_verbs : list string :=
  ["am"; "is"; "are"; "was"; "were"; "be"; "been"].

Definition _analyze_voice (doc : Doc) : Voice :=
  let has_be_verb := any (fun p => str_in (fst p) be_verbs) (verb_pattern doc) in
  let has_past_participle := any (fun p => snd p == "VBN") (verb_pattern doc) in
  if (has_be_verb && has_past_participle
      && negb (any (fun p => str_in (fst p) ["have"; "has"; "had"]) (verb_pattern doc)))%bool
  then Passive
  else Active.

(* ================================================================== *)
(** ** [_analyze_structure] *)

Definition subjects (doc : Doc) : list Token :=
  filter (fun token => contains "subj" (dep_ token)) doc.

Definition verbs (doc : Doc) : list Token :=
  filter is_verb doc.

Definition objects (doc : Doc) : list Token :=
  filter (fun token => contains "obj" (dep_ token)) doc.

(** Truth value of a list: non-empty. *)
Definition truthy {A : Type} (l : list A) : bool :=
  match l with
  | [] => false
  | _ :: _ => true
  end.

Definition _analyze_structure (doc : Doc) : Structure :=
  if (truthy (subjects doc) && truthy (verbs doc))%bool then
    if truthy (objects doc) then SVO else SV
  else Other.

(* ================================================================== *)
(** ** [_check_article_usage] *)

Definition article_exempt : list string :=
  ["school"; "home"; "work"; "breakfast"; "lunch"; "dinner";
   "yesterday"; "today"; "tomorrow"; "tv"; "television"].

(** What one iteration of the loop (lines 121-133) does. *)
Inductive Step : Type :=
| Continue     (* go on with the next token *)
| ReturnFalse. (* [return False] *)

Definition article_step (doc : Doc) (token : Token) : exc Step :=
  if ((pos_ token == "NOUN") && negb (pos_ token == "PROPN"))%bool then
    if str_in (lower (text token)) article_exempt then Ret Continue
    else if any (fun child => str_in (dep_ child) ["poss"; "nummod"])
                (children doc token) then Ret Continue
    else if dep_ token == "pobj" then Ret Continue
    else
      prv <- prev_token doc token ;;
      match prv with
      | None => Ret ReturnFalse
      | Some p =>
          if negb (str_in (pos_ p) ["DET"; "PRON"; "ADJ"; "PROPN"])
          then Ret ReturnFalse
          else Ret Continue
      end
  else Ret Continue.

Fixpoint article_loop (doc : Doc) (todo : list Token) : exc bool :=
  match todo with
  | [] => Ret true
  | token :: rest =>
      s <- article_step doc token ;;
      match s with
      | ReturnFalse => Ret false
      | Continue => article_loop doc rest
      end
  end.

Definition _check_article_usage (doc : Doc) : exc bool :=
  article_loop doc doc.

(* ================================================================== *)
(** ** [_check_subject_verb_agreement] *)

Definition agreement_step (doc : Doc) (token : Token) : Step :=
  if ((dep_ token == "nsubj") && (pos_ (token_head doc token) == "VERB"))%bool then
    if (negb (truthy (number token))
        || negb (truthy (number (token_head doc token))))%bool then Continue
    else if negb (list_eqb (number token) (number (token_head doc token)))
    then ReturnFalse
    else Continue
  else Continue.

Fixpoint agreement_loop (doc : Doc) (todo : list Token) : bool :=
  match todo with
  | [] => true
  | token :: rest =>
      match agreement_step doc token with
      | ReturnFalse => false
      | Continue => agreement_loop doc rest
      end
  end.

Definition _check_subject_verb_agreement (doc : Doc) : bool :=
  agreement_loop doc doc.

(* ================================================================== *)
(** ** [analyze_grammar] *)

(** The dictionary built by [analyze_grammar], one field per key, in the
    order of the source. *)
Record Analysis : Type := mkAnalysis {
  tense : Tense;
  voice : Voice;
  structure : Structure;
  agreement : bool;
  article : bool
}.

(** [analyze_grammar] after [doc = self.nlp(text)]: the parser is external
    and supplies the [Doc]. *)
Definition analyze_grammar (doc : Doc) : exc Analysis :=
  t <- _analyze_tense doc ;;
  let v := _analyze_voice doc in
  let s := _analyze_structure doc in
  let g := _check_subject_verb_agreement doc in
  a <- _check_article_usage doc ;;
  Ret (mkAnalysis t v s g a).

(** The result when no rule of any analysis applies. *)
Definition default_analysis : Analysis :=
  mkAnalysis Unknown Active Other true true.

(* ================================================================== *)
(** ** The tense rules as the specification lists them *)

(** A rule: a condition on the scan data and the category it yields. *)
Definition Rule : Type := (ScanState -> bool) * Tense.

(** Rules 1 to 6 in order; each numbered rule with two auxiliary sets
    gives two entries, the first set before the second. *)
Definition tense_rules : list Rule :=
  [ (fun st => has_been st && has_ing_form st
               && any_aux ["have"; "has"; "'ve"; "'s"] st, PresentPerfectProgressive);
    (fun st => has_been st && has_ing_form st && any_aux ["had"] st,
               PastPerfectProgressive);
    (fun st => has_ing_form st
               && any_aux ["am"; "is"; "are"; "'m"; "'s"; "'re"] st, PresentProgressive);
    (fun st => has_ing_form st && any_aux ["was"; "were"] st, PastProgressive);
    (fun st => has_past_participle st
               && any_aux ["have"; "has"; "'ve"; "'s"] st, PresentPerfect);
    (fun st => has_past_participle st && any_aux ["had"] st, PastPerfect);
    (fun st => has_past_participle st && negb (has_been st)
               && any_aux ["am"; "is"; "are"] st, PresentPassive);
    (fun st => has_past_participle st && negb (has_been st)
               && any_aux ["was"; "were"] st, PastPassive);
    (fun st => any_tag ["VBD"] st, SimplePast);
    (fun st => any_tag ["VBP"; "VBZ"] st, SimplePresent)
  ]%bool.

(** First-match evaluation; rule 7 is the default. *)
Fixpoint first_match (rules : list Rule) (st : ScanState) : Tense :=
  match rules with
  | [] => Unknown
  | (cond, category) :: rest =>
      if cond st then category else first_match rest st
  end.

(* ================================================================== *)
(** ** Sample sentences

    The first five are the sentences of the test harness (lines 164-170),
    with the annotations of their spaCy parse; the others exercise the
    look-ahead of ['s] and the two checks. *)

Definition tok (k : Z) (txt pos tag dep : string) (hd : nat) (num : list string)
  : Token := mkToken txt pos tag dep k hd num.

(** "He is writing a letter." *)
Definition doc_writing : Doc :=
  [ tok 0 "He" "PRON" "PRP" "nsubj" 2 ["Sing"];
    tok 1 "is" "AUX" "VBZ" "aux" 2 ["Sing"];
    tok 2 "writing" "VERB" "VBG" "ROOT" 2 [];
    tok 3 "a" "DET" "DT" "det" 4 [];
    tok 4 "letter" "NOUN" "NN" "dobj" 2 ["Sing"];
    tok 5 "." "PUNCT" "." "punct" 2 [] ].

(** "They've finished the project." *)
Definition doc_finished : Doc :=
  [ tok 0 "They" "PRON" "PRP" "nsubj" 2 ["Plur"];
    tok 1 "'ve" "AUX" "VBP" "aux" 2 [];
    tok 2 "finished" "VERB" "VBN" "ROOT" 2 [];
    tok 3 "the" "DET" "DT" "det" 4 [];
    tok 4 "project" "NOUN" "NN" "dobj" 2 ["Sing"];
    tok 5 "." "PUNCT" "." "punct" 2 [] ].

(** "We were watching TV." *)
Definition doc_watching : Doc :=
  [ tok 0 "We" "PRON" "PRP" "nsubj" 2 ["Plur"];
    tok 1 "were" "AUX" "VBD" "aux" 2 [];
    tok 2 "watching" "VERB" "VBG" "ROOT" 2 [];
    tok 3 "TV" "NOUN" "NN" "dobj" 2 ["Sing"];
    tok 4 "." "PUNCT" "." "punct" 2 [] ].

(** "The food was being cooked." *)
Definition doc_cooked : Doc :=
  [ tok 0 "The" "DET" "DT" "det" 1 [];
    tok 1 "food" "NOUN" "NN" "nsubjpass" 4 ["Sing"];
    tok 2 "was" "AUX" "VBD" "aux" 4 ["Sing"];
    tok 3 "being" "AUX" "VBG" "auxpass" 4 [];
    tok 4 "cooked" "VERB" "VBN" "ROOT" 4 [];
    tok 5 "." "PUNCT" "." "punct" 4 [] ].

(** "The window broke." *)
Definition doc_broke : Doc :=
  [ tok 0 "The" "DET" "DT" "det" 1 [];
    tok 1 "window" "NOUN" "NN" "nsubj" 2 ["Sing"];
    tok 2 "broke" "VERB" "VBD" "ROOT" 2 [];
    tok 3 "." "PUNCT" "." "punct" 2 [] ].

(** "It's been raining": the contraction resolved by look-ahead. *)
Definition doc_raining : Doc :=
  [ tok 0 "It" "PRON" "PRP" "nsubj" 3 ["Sing"];
    tok 1 "'s" "AUX" "VBZ" "aux" 3 [];
    tok 2 "been" "AUX" "VBN" "aux" 3 [];
    tok 3 "raining" "VERB" "VBG" "ROOT" 3 [] ].

(** "The report has been written." *)
Definition doc_written : Doc :=
  [ tok 0 "The" "DET" "DT" "det" 1 [];
    tok 1 "report" "NOUN" "NN" "nsubjpass" 4 ["Sing"];
    tok 2 "has" "AUX" "VBZ" "aux" 4 ["Sing"];
    tok 3 "been" "AUX" "VBN" "auxpass" 4 [];
    tok 4 "written" "VERB" "VBN" "ROOT" 4 [];
    tok 5 "." "PUNCT" "." "punct" 4 [] ].

(** "Dogs bark.": a bare plural noun at the start of the sentence. *)
Definition doc_dogs : Doc :=
  [ tok 0 "Dogs" "NOUN" "NNS" "nsubj" 1 ["Plur"];
    tok 1 "bark" "VERB" "VBP" "ROOT" 1 ["Plur"];
    tok 2 "." "PUNCT" "." "punct" 1 [] ].

(** "Dogs barks.": a plural subject with a singular verb. *)
Definition doc_barks : Doc :=
  [ tok 0 "Dogs" "NOUN" "NNS" "nsubj" 1 ["Plur"];
    tok 1 "barks" "VERB" "VBZ" "ROOT" 1 ["Sing"];
    tok 2 "." "PUNCT" "." "punct" 1 [] ].

(** The tokens of "The food was being cooked." in reverse order, as a
    sentence of its own: indices and heads follow the new positions. *)
Definition doc_cooked_reversed : Doc :=
  [ tok 0 "." "PUNCT" "." "punct" 1 [];
    tok 1 "cooked" "VERB" "VBN" "ROOT" 1 [];
    tok 2 "being" "AUX" "VBG" "auxpass" 1 [];
    tok 3 "was" "AUX" "VBD" "aux" 1 ["Sing"];
    tok 4 "food" "NOUN" "NN" "nsubjpass" 1 ["Sing"];
    tok 5 "The" "DET" "DT" "det" 4 [] ].

(** A noun spelled with U+212A KELVIN SIGN for its last letter; its lower
    case is "work". *)
Definition doc_kelvin : Doc :=
  [ tok 0 "worK" "NOUN" "NN" "ROOT" 0 [] ].

(** "Broken windows": a participle and nothing else. *)
Definition doc_broken : Doc :=
  [ tok 0 "Broken" "VERB" "VBN" "amod" 1 [];
    tok 1 "windows" "NOUN" "NNS" "ROOT" 1 ["Plur"] ].

(* ================================================================== *)
(** ** Token-level conditions used in the statements *)

(** The token-level conditions behind the three flags. *)
Definition gerund_token (doc : Doc) (t : Token) : bool :=
  (is_verb t
   && ((tag_ t == "VBG")
       || ((lower (text t) == "'s")
           && match following doc t with
              | Some n => tag_ n == "VBG"
              | None => false
              end)))%bool.

Definition participle_token (t : Token) : bool :=
  (is_verb t && (tag_ t == "VBN"))%bool.

Definition been_token (t : Token) : bool :=
  (is_verb t && (tag_ t == "VBN") && (lower (text t) == "been"))%bool.

(** A common noun that the check rejects: not exempted by its text, by a
    [poss] or [nummod] dependent or by being a [pobj], and with no
    determiner-like token immediately before it. *)
Definition needs_article (doc : Doc) (t : Token) : Prop :=
  pos_ t = "NOUN" /\ pos_ t <> "PROPN" /\
  ~ In (lower (text t)) article_exempt /\
  (forall c, In c (children doc t) -> ~ In (dep_ c) ["poss"; "nummod"]) /\
  dep_ t <> "pobj" /\
  (preceding doc t = None \/
   exists p, preceding doc t = Some p /\
             ~ In (pos_ p) ["DET"; "PRON"; "ADJ"; "PROPN"]).

(** The same condition as a test. *)
Definition needs_articleb (doc : Doc) (t : Token) : bool :=
  ((pos_ t == "NOUN") && negb (pos_ t == "PROPN")
   && negb (str_in (lower (text t)) article_exempt)
   && negb (existsb (fun c => str_in (dep_ c) ["poss"; "nummod"]) (children doc t))
   && negb (dep_ t == "pobj")
   && match preceding doc t with
      | None => true
      | Some p => negb (str_in (pos_ p) ["DET"; "PRON"; "ADJ"; "PROPN"])
      end)%bool.

(** A subject whose number differs from the number of its head verb, both
    numbers being present. *)
Definition disagrees (doc : Doc) (t : Token) : Prop :=
  dep_ t = "nsubj" /\ pos_ (token_head doc t) = "VERB" /\
  number t <> [] /\ number (token_head doc t) <> [] /\
  number t <> number (token_head doc t).

(* ================================================================== *)
(** ** The scan in closed form *)

(** The contracted auxiliaries that lines 39-53 resolve. *)
Definition contractions : list string := ["'s"; "'ve"; "'m"; "'re"].

(** What one token contributes to [aux_verbs]. *)
Definition aux_entry (doc : Doc) (t : Token) : list (string * string) :=
  if is_verb t then
    if lower (text t) == "'s" then
      match following doc t with
      | Some n => if tag_ n == "VBG" then [("is", "VBZ")] else [("has", "VBZ")]
      | None => [("has", "VBZ")]
      end
    else if lower (text t) == "'ve" then [("have", "VBP")]
    else if lower (text t) == "'m" then [("am", "VBP")]
    else if lower (text t) == "'re" then [("are", "VBP")]
    else if dep_ t == "aux" then [(lower (text t), tag_ t)]
    else []
  else [].

(** What one token contributes to [main_verbs]. *)
Definition main_entry (t : Token) : list (string * string) :=
  if (is_verb t && negb (str_in (lower (text t)) contractions)
      && negb (dep_ t == "aux"))%bool
  then [(lower (text t), tag_ t)]
  else [].

(** The values of the loop variables after the loop. *)
Definition scan_result (doc : Doc) : ScanState :=
  mkScan (flat_map (aux_entry doc) doc) (flat_map main_entry doc)
         (filter is_verb doc)
         (existsb (gerund_token doc) doc) (existsb participle_token doc)
         (existsb been_token doc).

(** The attributes of a token apart from its place in the sentence. *)
Definition content (t : Token) : string * string * string * string :=
  (text t, pos_ t, tag_ t, dep_ t).

(** A VERB/AUX token carrying the tag [tg]. *)
Definition verb_tagged (tags : list string) (t : Token) : bool :=
  (is_verb t && str_in (tag_ t) tags)%bool.

(** A token that the scan files as an auxiliary. *)
Definition auxiliary_token (t : Token) : bool :=
  (is_verb t && (str_in (lower (text t)) contractions || (dep_ t == "aux")))%bool.

(** A VERB/AUX token in relation [aux] with one of the given lower-cased
    texts. *)
Definition aux_with_text (forms : list string) (t : Token) : Prop :=
  is_verb t = true /\ dep_ t = "aux" /\ In (lower (text t)) forms.

(** The tokens that stand behind each tense category. *)
Definition tense_evidence (doc : Doc) (r : Tense) : Prop :=
  match r with
  | PresentPerfectProgressive =>
      existsb been_token doc = true /\ existsb (gerund_token doc) doc = true
  | PastPerfectProgressive =>
      existsb been_token doc = true /\ existsb (gerund_token doc) doc = true /\
      exists t, In t doc /\ aux_with_text ["had"] t
  | PresentProgressive =>
      existsb (gerund_token doc) doc = true
  | PastProgressive =>
      existsb (gerund_token doc) doc = true /\
      exists t, In t doc /\ aux_with_text ["was"; "were"] t
  | PresentPerfect =>
      existsb participle_token doc = true
  | PastPerfect =>
      existsb participle_token doc = true /\
      exists t, In t doc /\ aux_with_text ["had"] t
  | PresentPassive =>
      existsb participle_token doc = true /\ existsb been_token doc = false /\
      existsb (gerund_token doc) doc = false
  | PastPassive =>
      existsb participle_token doc = true /\ existsb been_token doc = false /\
      existsb (gerund_token doc) doc = false /\
      exists t, In t doc /\ aux_with_text ["was"; "were"] t
  | SimplePast =>
      existsb (verb_tagged ["VBD"]) doc = true
  | SimplePresent =>
      existsb (verb_tagged ["VBP"; "VBZ"]) doc = true /\
      existsb (verb_tagged ["VBD"]) doc = false
  | Unknown =>
      existsb (verb_tagged ["VBD"; "VBP"; "VBZ"]) doc = false
  end.

(** The conditions on the scan data under which each category is
    returned. *)
Definition category_conditions (st : ScanState) (r : Tense) : Prop :=
  match r with
  | PresentPerfectProgressive => has_been st = true /\ has_ing_form st = true
  | PastPerfectProgressive =>
      has_been st = true /\ has_ing_form st = true /\ any_aux ["had"] st = true
  | PresentProgressive => has_ing_form st = true
  | PastProgressive =>
      has_ing_form st = true /\ any_aux ["was"; "were"] st = true
  | PresentPerfect => has_past_participle st = true
  | PastPerfect =>
      has_past_participle st = true /\ any_aux ["had"] st = true
  | PresentPassive =>
      has_past_participle st = true /\ has_been st = false /\
      has_ing_form st = false
  | PastPassive =>
      has_past_participle st = true /\ has_been st = false /\
      has_ing_form st = false /\ any_aux ["was"; "were"] st = true
  | SimplePast => any_tag ["VBD"] st = true
  | SimplePresent =>
      any_tag ["VBP"; "VBZ"] st = true /\ any_tag ["VBD"] st = false
  | Unknown =>
      any_tag ["VBP"; "VBZ"] st = false /\ any_tag ["VBD"] st = false
  end.

(** [sub] occurs in [s]. *)
Definition substring_of (sub s : string) : Prop :=
  exists pre post, s = pre ++ sub ++ post.

(* ================================================================== *)
(** ** [context.py]: class ContextAnalyzer

    The translation model (tokenizer, beam search, decoding) is external:
    it is the parameter [mt], from the text given to the tokenizer to the
    decoded output.  [str.strip] and [str.capitalize] act on arbitrary
    Unicode text and are parameters too; what is proved holds for every
    choice of them, under the stated facts where one is needed.  Strings
    are UTF-8 byte strings: equality, concatenation, search and
    replacement of ASCII patterns agree with Python's on code points. *)

Module Context.

Inductive error : Type :=
| IndexError
| KeyError (key : string).

Inductive result (A : Type) : Type :=
| Ok (a : A)
| Err (e : error).
Arguments Ok {A} a.
Arguments Err {A} e.

Definition bind {A B : Type} (c : result A) (k : A -> result B) : result B :=
  match c with
  | Ok a => k a
  | Err e => Err e
  end.

(** An indexing error of [Py.getitem] seen from this module. *)
Definition lift {A : Type} (c : Py.exc A) : result A :=
  match c with
  | Py.Ret a => Ok a
  | Py.Raise Py.IndexError => Err IndexError
  end.

(** [s.split(c)] for a one-character separator. *)
Fixpoint split (c : ascii) (s : string) : list string :=
  match s with
  | EmptyString => [EmptyString]
  | String d r =>
      match split c r with
      | [] => [EmptyString]
      | piece :: pieces =>
          if Ascii.eqb d c then EmptyString :: piece :: pieces
          else String d piece :: pieces
      end
  end.

(** [s.replace(old, new)] for a non-empty [old]: occurrences are taken
    from left to right and do not overlap; [skip] counts the characters of
    the current occurrence still to be passed over. *)
Fixpoint replace_from (old new : string) (skip : nat) (s : string) : string :=
  match s with
  | EmptyString => EmptyString
  | String c r =>
      match skip with
      | S k => replace_from old new k r
      | O =>
          if String.prefix old s
          then new ++ replace_from old new (String.length old - 1) r
          else String c (replace_from old new 0 r)
      end
  end.

(** [new] after every character: the result of replacing the empty
    string. *)
Fixpoint follow_each (new s : string) : string :=
  match s with
  | EmptyString => EmptyString
  | String c r => String c (new ++ follow_each new r)
  end.

(** [s.replace(old, new)] *)
Definition replace (old new s : string) : string :=
  match old with
  | EmptyString => new ++ follow_each new s
  | String _ _ => replace_from old new 0 s
  end.

(** A dictionary from strings to strings, in insertion order. *)
Definition dict : Type := list (string * string).

(** [d.get(k)] *)
Fixpoint lookup (d : dict) (k : string) : option string :=
  match d with
  | [] => None
  | (k', v) :: rest => if k' == k then Some v else lookup rest k
  end.

(** [d.get(k, default)] *)
Definition get (d : dict) (k default : string) : string :=
  match lookup d k with
  | Some v => v
  | None => default
  end.

(** [d[k] = v]: an existing key keeps its place. *)
Fixpoint set (d : dict) (k v : string) : dict :=
  match d with
  | [] => [(k, v)]
  | (k', v') :: rest =>
      if k' == k then (k', v) :: rest else (k', v') :: set rest k v
  end.

(** [list(d.keys())] *)
Definition keys (d : dict) : list string := map fst d.

(** Truth value of an optional string: [None] and [''] are false. *)
Definition truthy (context : option string) : bool :=
  match context with
  | Some c => negb (c == "")
  | None => false
  end.

(** Lines 17-25. *)
Definition context_mapping : dict :=
  [ ("아버지는 매일 저녁 독서를 하십니다.", "Father is in his study room reading books.");
    ("이 가방은 매우 큽니다.", "This bag is very large.");
    ("겨울이 되어 날씨가 춥습니다.", "It is winter season with snow falling.");
    ("병원에서 진료를 받았습니다.", "At the hospital for an eye examination.");
    ("점심을 못 먹었습니다.", "Skipped lunch and feeling hungry.");
    ("항구에 도착했습니다.", "Looking at ships in the port.");
    ("과수원에 갔습니다.", "Looking at pears in the orchard.") ].

(** Lines 28-32. *)
Definition text_mapping : dict :=
  [ ("배가 고프다", "My stomach is hungry");
    ("배가 깨끗하다", "The ship is clean");
    ("배가 익었다", "The pear is ripe") ].

(** Lines 62-64. *)
Definition unwanted : list string :=
  [ "Content:"; "Context:"; "Control:"; "Translation:";
    "Given"; "Give"; "System:"; "Therefore"; "So";
    "And"; "Then"; "Failed:"; "At the" ].

(** Lines 15-38: the text handed to the tokenizer. *)
Definition full_text (text : string) (context : option string) : string :=
  match context with
  | Some c =>
      if truthy context then
        let context_eng := get context_mapping c c in
        let translated_text := get text_mapping text text in
        context_eng ++ ". " ++ translated_text
      else text
  | None => text
  end.

Section Analyzer.

Variable mt : string -> string.
Variable strip : string -> string.
Variable capitalize : string -> string.

(** Lines 66-67: the loop over [unwanted]. *)
Definition remove_unwanted (translation : string) : string :=
  fold_left (fun tr w => strip (replace w "" tr)) unwanted translation.

(** Lines 56-70. *)
Definition post_process (translation : string) : result string :=
  bind (if contains "." translation
        then bind (lift (Py.getitem (split "."%char translation) (-1)))
                  (fun piece => Ok (strip piece))
        else Ok translation)
       (fun translation => Ok (capitalize (remove_unwanted translation))).

(** Lines 13-72. *)
Definition translate_with_context (text : string) (context : option string)
  : result string :=
  let translation := mt (full_text text context) in
  if truthy context then post_process translation else Ok translation.

(** The dictionaries handled by [analyze_ambiguous_pairs]: an absent key
    is [None]. *)
Record Pair : Type := mkPair {
  sentence : option string;
  variations : option (list string);
  contexts : option (list (option string))
}.

Record VariationResult : Type := mkVariationResult {
  original : string;
  translations : dict
}.

Record PairResult : Type := mkPairResult {
  base_case : string;
  results : list VariationResult
}.

(** [pair[name]] *)
Definition getitem_key {A : Type} (field : option A) (name : string)
  : result A :=
  match field with
  | Some a => Ok a
  | None => Err (KeyError name)
  end.

(** Lines 93-96. *)
Fixpoint context_loop (variation : string) (todo : list (option string))
         (context_translations : dict) : result dict :=
  match todo with
  | [] => Ok context_translations
  | context :: rest =>
      match context with
      | Some c =>
          if truthy context then
            bind (translate_with_context variation context)
                 (fun translation =>
                    context_loop variation rest
                                 (set context_translations c translation))
          else context_loop variation rest context_translations
      | None => context_loop variation rest context_translations
      end
  end.

(** Lines 85-101. *)
Fixpoint variation_loop (todo : list string) (ctxs : list (option string))
         (pair_results : list VariationResult) : result (list VariationResult) :=
  match todo with
  | [] => Ok pair_results
  | variation :: rest =>
      bind (translate_with_context variation None)
           (fun base_translation =>
      bind (context_loop variation ctxs (set [] "no_context" base_translation))
           (fun context_translations =>
      variation_loop rest ctxs
        (pair_results ++ [mkVariationResult variation context_translations])))
  end.

(** Lines 78-106. *)
Fixpoint pair_loop (todo : list Pair) (acc : list PairResult)
  : result (list PairResult) :=
  match todo with
  | [] => Ok acc
  | pair_ :: rest =>
      bind (getitem_key (sentence pair_) "sentence") (fun base_sentence =>
      bind (getitem_key (variations pair_) "variations") (fun vars =>
      let ctxs := match contexts pair_ with
                  | Some l => l
                  | None => [None]
                  end in
      bind (variation_loop vars ctxs []) (fun pair_results =>
      pair_loop rest (acc ++ [mkPairResult base_sentence pair_results]))))
  end.

Definition analyze_ambiguous_pairs (pairs : list Pair)
  : result (list PairResult) :=
  pair_loop pairs [].

(** The values computed, written without the error plumbing; used to
    state what the functions return. *)

(** The text after the last [c] of [s], or [s] itself without any [c]. *)
Definition last_piece (c : ascii) (s : string) : string :=
  last (split c s) EmptyString.

Definition translation_of (text : string) (context : option string) : string :=
  let raw := mt (full_text text context) in
  if truthy context then
    capitalize (remove_unwanted
                  (if contains "." raw then strip (last_piece "."%char raw)
                   else raw))
  else raw.

(** [context] is one of the contexts that get a translation of their own
    under the key [k]. *)
Definition selects (k : string) (context : option string) : bool :=
  match context with
  | Some c => (truthy context && (c == k))%bool
  | None => false
  end.

(** The contexts a pair is analysed with. *)
Definition contexts_of (pair_ : Pair) : list (option string) :=
  match contexts pair_ with
  | Some l => l
  | None => [None]
  end.

(** The dictionary after the loop over the contexts. *)
Definition context_dict (variation : string) (todo : list (option string))
           (d : dict) : dict :=
  fold_left
    (fun d context =>
       match context with
       | Some c =>
           if truthy context then set d c (translation_of variation context)
           else d
       | None => d
       end)
    todo d.

Definition variation_result (ctxs : list (option string)) (variation : string)
  : VariationResult :=
  mkVariationResult variation
    (context_dict variation ctxs
       [("no_context", translation_of variation None)]).

Definition pair_result (base_sentence : string) (vars : list string)
           (ctxs : list (option string)) : PairResult :=
  mkPairResult base_sentence (map (variation_result ctxs) vars).

(** Both mandatory keys are present. *)
Definition keyed (pair_ : Pair) : Prop :=
  sentence pair_ <> None /\ variations pair_ <> None.

End Analyzer.

(** Instances used in examples: ASCII whitespace and ASCII letters. *)
Definition is_space (c : ascii) : bool :=
  let n := nat_of_ascii c in
  ((Nat.leb 9 n && Nat.leb n 13) || Nat.eqb n 32)%bool.

Fixpoint lstrip (s : string) : string :=
  match s with
  | EmptyString => EmptyString
  | String c r => if is_space c then lstrip r else s
  end.

Fixpoint reverse (s : string) : string :=
  match s with
  | EmptyString => EmptyString
  | String c r => reverse r ++ String c EmptyString
  end.

Definition ascii_strip (s : string) : string :=
  reverse (lstrip (reverse (lstrip s))).

Definition upper_ascii (c : ascii) : ascii :=
  let n := nat_of_ascii c in
  if (Nat.leb 97 n && Nat.leb n 122)%bool then ascii_of_nat (n - 32) else c.

Definition ascii_capitalize (s : string) : string :=
  match s with
  | EmptyString => EmptyString
  | String c r => String (upper_ascii c) (lower r)
  end.

(** A stand-in for the model that answers every request with the same
    two sentences. *)
Definition mt_ship (full_text : string) : string :=
  "I arrived at the port. The ship is clean".

(** A stand-in for the model whose answer ends with a full stop. *)
Definition mt_stop (full_text : string) : string :=
  "The ship is clean.".

(** A stand-in for the model that answers a single clean phrase. *)
Definition mt_plain (full_text : string) : string :=
  "the ship is clean".

(** The second ambiguity test of the script (lines 127-137). *)
Definition snow_pair : Pair :=
  mkPair (Some "눈/눈 모호성 테스트")
         (Some ["눈이 내린다"; "눈이 아프다"])
         (Some [Some "겨울이 되어 날씨가 춥습니다."; Some "병원에서 진료를 받았습니다."]).

End Context.

(* ================================================================== *)
(** ** Proof automation *)

(** Closes one branch of the bucket analysis: the state is the one
    computed, and the other branches' premises are contradictory. *)
Ltac settle_bucket :=
  eexists; split; [reflexivity|]; simpl;
  repeat match goal with
         | H : aux_verbs _ = _ |- _ => rewrite H; clear H
         | H : main_verbs _ = _ |- _ => rewrite H; clear H
         end;
  repeat split; intros;
  try reflexivity; try discriminate; try congruence;
  try (exfalso;
       match goal with
       | H : ~ _ |- _ => apply H; simpl; eauto 7; fail
       end).

(* ================================================================== *)
(** ** Basic facts about the primitives *)

Lemma str_in_In (x : string) (l : list string) :
  str_in x l = true <-> In x l.
Proof.
  unfold str_in. rewrite existsb_exists. split.
  - intros [y [Hy He]]. apply String.eqb_eq in He. now subst.
  - intros H. exists x. split; [assumption | apply String.eqb_refl].
Qed.

Lemma str_in_false (x : string) (l : list string) :
  str_in x l = false <-> ~ In x l.
Proof.
  rewrite <- str_in_In. destruct (str_in x l); split; congruence.
Qed.

Lemma str_in_single (x y : string) : str_in x [y] = (x == y).
Proof. unfold str_in. simpl. apply orb_false_r. Qed.

Lemma truthy_true {A : Type} (l : list A) : truthy l = true <-> l <> [].
Proof. destruct l; simpl; split; congruence. Qed.

Lemma truthy_false {A : Type} (l : list A) : truthy l = false <-> l = [].
Proof. destruct l; simpl; split; congruence. Qed.

Lemma list_eqb_eq (a b : list string) : list_eqb a b = true <-> a = b.
Proof.
  revert b. induction a as [|x a IH]; intros [|y b]; simpl; split;
    try congruence.
  - intros H. apply andb_true_iff in H. destruct H as [Hx Ha].
    apply String.eqb_eq in Hx. apply IH in Ha. now subst.
  - intros H. injection H as -> ->. rewrite String.eqb_refl. simpl.
    now apply IH.
Qed.

Lemma any_exists {A : Type} (p : A -> bool) (l : list A) :
  any p l = true <-> exists x, In x l /\ p x = true.
Proof. apply existsb_exists. Qed.

(** In range, [l[k]] is the element at position [k]. *)
Lemma getitem_in_range {A : Type} (l : list A) (k : Z) :
  0 <= k < Z.of_nat (length l) ->
  exists a, nth_error l (Z.to_nat k) = Some a /\ getitem l k = Ret a.
Proof.
  intros Hk. unfold getitem.
  destruct (k <? 0) eqn:Hneg; [apply Z.ltb_lt in Hneg; lia|].
  rewrite Hneg. simpl.
  destruct (Z.of_nat (length l) <=? k) eqn:Hge; [apply Z.leb_le in Hge; lia|].
  destruct (nth_error l (Z.to_nat k)) as [a|] eqn:Hn.
  - now exists a.
  - apply nth_error_None in Hn. lia.
Qed.

(* ================================================================== *)
(** ** Well-formed sentences and the neighbour lookups *)

Lemma wf_from_nth (doc : Doc) : forall (k : Z) (n : nat) (t : Token),
  wf_from k doc = true -> nth_error doc n = Some t -> i t = k + Z.of_nat n.
Proof.
  induction doc as [|u rest IH]; intros k n t Hwf Hn.
  - destruct n; discriminate.
  - simpl in Hwf. apply andb_true_iff in Hwf. destruct Hwf as [Hu Hrest].
    destruct n as [|n]; simpl in Hn.
    + injection Hn as <-. apply Z.eqb_eq in Hu. lia.
    + rewrite (IH (k + 1) n t Hrest Hn). lia.
Qed.

Lemma wf_doc_position (doc : Doc) (t : Token) :
  wf_doc doc -> In t doc ->
  0 <= i t < len doc /\ nth_error doc (Z.to_nat (i t)) = Some t.
Proof.
  intros Hwf Hin. apply In_nth_error in Hin. destruct Hin as [n Hn].
  pose proof (wf_from_nth doc 0 n t Hwf Hn) as Hi.
  assert (Hlt : (n < length doc)%nat)
    by (apply nth_error_Some; rewrite Hn; discriminate).
  unfold len. split; [lia|].
  replace (Z.to_nat (i t)) with n by lia. exact Hn.
Qed.

Lemma next_token_following (doc : Doc) (t : Token) :
  -1 <= i t -> next_token doc t = Ret (following doc t).
Proof.
  intros Hi. unfold next_token, following, token_at, len.
  destruct (i t + 1 <? 0) eqn:Hneg; [apply Z.ltb_lt in Hneg; lia|].
  destruct (i t + 1 <? Z.of_nat (length doc)) eqn:Hlt.
  - apply Z.ltb_lt in Hlt.
    destruct (getitem_in_range doc (i t + 1)) as [a [Hn Hg]]; [lia|].
    rewrite Hg, Hn. reflexivity.
  - apply Z.ltb_ge in Hlt.
    assert (Hn : nth_error doc (Z.to_nat (i t + 1)) = None)
      by (apply nth_error_None; lia).
    now rewrite Hn.
Qed.

Lemma prev_token_preceding (doc : Doc) (t : Token) :
  i t <= len doc -> prev_token doc t = Ret (preceding doc t).
Proof.
  intros Hi. unfold prev_token, preceding, token_at, len in *.
  destruct (i t >? 0) eqn:Hpos.
  - apply Z.gtb_lt in Hpos.
    destruct (getitem_in_range doc (i t - 1)) as [a [Hn Hg]]; [lia|].
    rewrite Hg, Hn.
    destruct (i t - 1 <? 0) eqn:Hneg; [apply Z.ltb_lt in Hneg; lia|].
    reflexivity.
  - assert (Hle : i t <= 0)
      by (destruct (Z.gtb_spec (i t) 0); [discriminate | lia]).
    destruct (i t - 1 <? 0) eqn:Hneg; [reflexivity|].
    apply Z.ltb_ge in Hneg. lia.
Qed.

(* ================================================================== *)
(** ** The scanning loop of [_analyze_tense] *)

Lemma scan_bucket_returns (doc : Doc) (st : ScanState) (t : Token) :
  -1 <= i t -> exists st', scan_bucket doc st t = Ret st'.
Proof.
  intros Hi. unfold scan_bucket. rewrite (next_token_following doc t Hi).
  simpl.
  repeat match goal with
         | |- context [if ?b then _ else _] => destruct b
         end; eauto.
Qed.

Lemma scan_token_returns (doc : Doc) (st : ScanState) (t : Token) :
  -1 <= i t -> exists st', scan_token doc st t = Ret st'.
Proof.
  intros Hi. unfold scan_token. destruct (is_verb t); [|eauto].
  now apply scan_bucket_returns.
Qed.

Lemma scan_loop_returns (doc : Doc) (todo : list Token) : forall st,
  (forall t, In t todo -> -1 <= i t) ->
  exists st', scan_loop doc st todo = Ret st'.
Proof.
  induction todo as [|t rest IH]; intros st Hi; simpl; [eauto|].
  destruct (scan_token_returns doc st t) as [st1 H1]; [apply Hi; now left|].
  rewrite H1. simpl. apply IH. intros u Hu. apply Hi. now right.
Qed.

Lemma tense_scan_returns (doc : Doc) :
  wf_doc doc -> exists st, tense_scan doc = Ret st.
Proof.
  intros Hwf. apply scan_loop_returns. intros t Ht.
  destruct (wf_doc_position doc t Hwf Ht) as [Hr _]. lia.
Qed.

(** What one iteration does to the flags and to [all_verb_tokens]. *)
Lemma scan_token_flags (doc : Doc) (st st' : ScanState) (t : Token) :
  -1 <= i t -> scan_token doc st t = Ret st' ->
  has_ing_form st' = (has_ing_form st || gerund_token doc t)%bool /\
  has_past_participle st' = (has_past_participle st || participle_token t)%bool /\
  has_been st' = (has_been st || been_token t)%bool /\
  all_verb_tokens st' = (all_verb_tokens st ++ (if is_verb t then [t] else []))%list.
Proof.
  intros Hi. unfold scan_token, gerund_token, participle_token, been_token.
  destruct (is_verb t).
  2:{ intros H. injection H as <-. rewrite !orb_false_r, app_nil_r. auto. }
  unfold scan_bucket, scan_flags. rewrite (next_token_following doc t Hi).
  simpl Py.bind. rewrite !str_in_single.
  destruct (tag_ t == "VBG") eqn:Eg.
  - apply String.eqb_eq in Eg. rewrite Eg. simpl.
    repeat match goal with
           | |- context [if ?b then _ else _] => destruct b
           end;
      intros H; injection H as <-; simpl;
      rewrite ?orb_true_r, ?orb_false_r; auto.
  - destruct (tag_ t == "VBN"); destruct (lower (text t) == "been") eqn:Eb;
      try (apply String.eqb_eq in Eb; rewrite Eb); simpl;
      repeat match goal with
             | |- context [if ?b then _ else _] => destruct b
             end;
      intros H; injection H as <-; simpl;
      rewrite ?orb_true_r, ?orb_false_r; auto.
Qed.

Lemma scan_loop_flags (doc : Doc) (todo : list Token) : forall st st',
  (forall t, In t todo -> -1 <= i t) ->
  scan_loop doc st todo = Ret st' ->
  has_ing_form st' = (has_ing_form st || existsb (gerund_token doc) todo)%bool /\
  has_past_participle st'
    = (has_past_participle st || existsb participle_token todo)%bool /\
  has_been st' = (has_been st || existsb been_token todo)%bool /\
  all_verb_tokens st' = (all_verb_tokens st ++ filter is_verb todo)%list.
Proof.
  induction todo as [|t rest IH]; intros st st' Hi H; simpl in H.
  - injection H as <-. simpl. rewrite !orb_false_r, app_nil_r. auto.
  - destruct (scan_token doc st t) as [st1|e] eqn:H1; [|discriminate].
    simpl in H.
    destruct (scan_token_flags doc st st1 t (Hi t (or_introl eq_refl)) H1)
      as [Hg [Hp [Hb Hv]]].
    destruct (IH st1 st' (fun u Hu => Hi u (or_intror Hu)) H)
      as [Hg' [Hp' [Hb' Hv']]].
    rewrite Hg', Hp', Hb', Hv', Hg, Hp, Hb, Hv. simpl.
    rewrite !orb_assoc. repeat split; try reflexivity.
    destruct (is_verb t); simpl; rewrite <- app_assoc; reflexivity.
Qed.

(** The flags after the whole scan. *)
Lemma tense_scan_flags (doc : Doc) (st : ScanState) :
  wf_doc doc -> tense_scan doc = Ret st ->
  has_ing_form st = existsb (gerund_token doc) doc /\
  has_past_participle st = existsb participle_token doc /\
  has_been st = existsb been_token doc /\
  all_verb_tokens st = filter is_verb doc.
Proof.
  intros Hwf H. apply scan_loop_flags in H.
  - exact H.
  - intros t Ht. destruct (wf_doc_position doc t Hwf Ht) as [Hr _]. lia.
Qed.

(** The cascade of [if] blocks is first-match evaluation of the rule
    table. *)
Lemma any_had_any_aux (st : ScanState) : any_had st = any_aux ["had"] st.
Proof.
  unfold any_had, any_aux, any.
  induction (aux_verbs st) as [|p l IH]; cbn -[str_in].
  - reflexivity.
  - rewrite IH, str_in_single. reflexivity.
Qed.

Lemma any_vbd_any_tag (st : ScanState) :
  any (fun t => tag_ t == "VBD") (all_verb_tokens st) = any_tag ["VBD"] st.
Proof.
  unfold any_tag, any.
  induction (all_verb_tokens st) as [|t l IH]; cbn -[str_in].
  - reflexivity.
  - rewrite IH, str_in_single. reflexivity.
Qed.

Lemma tense_of_scan_first_match (st : ScanState) :
  tense_of_scan st = first_match tense_rules st.
Proof.
  unfold tense_of_scan, block_perfect_progressive, block_progressive,
    block_perfect, block_passive, block_simple_past, block_simple_present,
    tense_rules, first_match, or_else.
  rewrite any_had_any_aux, any_vbd_any_tag.
  destruct (has_been st), (has_ing_form st), (has_past_participle st);
    destruct (any_aux ["have"; "has"; "'ve"; "'s"] st);
    destruct (any_aux ["had"] st);
    destruct (any_aux ["am"; "is"; "are"; "'m"; "'s"; "'re"] st);
    destruct (any_aux ["was"; "were"] st);
    destruct (any_aux ["am"; "is"; "are"] st);
    destruct (any_tag ["VBD"] st);
    destruct (any_tag ["VBP"; "VBZ"] st); reflexivity.
Qed.

Lemma been_token_exact (t : Token) :
  is_verb t = true -> tag_ t = "VBN" -> text t = "been" -> been_token t = true.
Proof.
  intros Hv Ht Hx. unfold been_token. rewrite Hv, Ht, Hx. reflexivity.
Qed.

(** Only the passive block yields a passive category, and it is guarded by
    [not has_been]. *)
Lemma passive_needs_no_been (st : ScanState) :
  tense_of_scan st = PresentPassive \/ tense_of_scan st = PastPassive ->
  has_been st = false.
Proof.
  unfold tense_of_scan, block_perfect_progressive, block_progressive,
    block_perfect, block_passive, block_simple_past, block_simple_present,
    or_else.
  destruct (has_been st); [|reflexivity].
  destruct (has_ing_form st), (has_past_participle st); simpl;
    repeat match goal with
           | |- context [if ?b then _ else _] => destruct b; simpl
           end;
    intros [H|H]; discriminate.
Qed.

(* ================================================================== *)
(** ** The sentences of the test harness *)

Example writing_analysis :
  analyze_grammar doc_writing
  = Ret (mkAnalysis PresentProgressive Active SVO true true).
Proof. reflexivity. Qed.

Example finished_analysis :
  analyze_grammar doc_finished
  = Ret (mkAnalysis PresentPerfect Active SVO true true).
Proof. reflexivity. Qed.

Example watching_analysis :
  analyze_grammar doc_watching
  = Ret (mkAnalysis PastProgressive Active SVO true true).
Proof. reflexivity. Qed.

Example broke_analysis :
  analyze_grammar doc_broke
  = Ret (mkAnalysis SimplePast Active SV true true).
Proof. reflexivity. Qed.

(* ================================================================== *)
(** ** Properties of [_analyze_tense] *)

(** C4: a sentence with a scanned (VERB/AUX) token tagged VBN whose text is
    "been" has [has_been] set, and its tense is neither "present passive"
    nor "past passive". *)
Theorem been_never_passive (doc : Doc) :
  wf_doc doc ->
  (exists t, In t doc /\ is_verb t = true /\ tag_ t = "VBN" /\ text t = "been") ->
  exists st r,
    tense_scan doc = Ret st /\ has_been st = true /\
    _analyze_tense doc = Ret r /\ r <> PresentPassive /\ r <> PastPassive.
Proof.
  intros Hwf [t [Hin [Hv [Ht Hx]]]].
  destruct (tense_scan_returns doc Hwf) as [st Hst].
  destruct (tense_scan_flags doc st Hwf Hst) as [_ [_ [Hb _]]].
  assert (Hbeen : has_been st = true).
  { rewrite Hb. apply existsb_exists. exists t. split; [exact Hin|].
    now apply been_token_exact. }
  exists st, (tense_of_scan st).
  unfold _analyze_tense. rewrite Hst. simpl.
  repeat split; try assumption; intros Hr;
    (assert (Hf : has_been st = false)
      by (apply passive_needs_no_been; auto));
    congruence.
Qed.

Lemma been_never_passive_witness :
  exists st r,
    tense_scan doc_written = Ret st /\ has_been st = true /\
    _analyze_tense doc_written = Ret r /\ r <> PresentPassive /\ r <> PastPassive.
Proof.
  apply (been_never_passive doc_written).
  - reflexivity.
  - exists (tok 3 "been" "AUX" "VBN" "auxpass" 4 []).
    repeat split; try reflexivity. simpl. tauto.
Defined.

(** C8: how the scan files one VERB/AUX token [token] of a sentence.
    With [w] its lower-cased text:
    - ['s] followed by a VBG token appends [("is", "VBZ")] to the
      auxiliaries and sets [has_ing_form];
    - ['s] otherwise (next token "been", anything else, or none) appends
      [("has", "VBZ")];
    - ['ve], ['m], ['re] append [("have", "VBP")], [("am", "VBP")],
      [("are", "VBP")];
    all of these whatever [dep_] is; any other token goes to the
    auxiliaries when [dep_] is [aux] and to the main verbs otherwise. *)
Theorem contracted_auxiliaries (doc : Doc) (st : ScanState) (token : Token) :
  wf_doc doc -> In token doc -> is_verb token = true ->
  exists st',
    scan_token doc st token = Ret st' /\
    (lower (text token) = "'s" ->
     (exists n, following doc token = Some n /\ tag_ n = "VBG") ->
     aux_verbs st' = (aux_verbs st ++ [("is", "VBZ")])%list /\
     has_ing_form st' = true /\ main_verbs st' = main_verbs st) /\
    (lower (text token) = "'s" ->
     ~ (exists n, following doc token = Some n /\ tag_ n = "VBG") ->
     aux_verbs st' = (aux_verbs st ++ [("has", "VBZ")])%list /\
     main_verbs st' = main_verbs st) /\
    (lower (text token) = "'ve" ->
     aux_verbs st' = (aux_verbs st ++ [("have", "VBP")])%list /\
     main_verbs st' = main_verbs st) /\
    (lower (text token) = "'m" ->
     aux_verbs st' = (aux_verbs st ++ [("am", "VBP")])%list /\
     main_verbs st' = main_verbs st) /\
    (lower (text token) = "'re" ->
     aux_verbs st' = (aux_verbs st ++ [("are", "VBP")])%list /\
     main_verbs st' = main_verbs st) /\
    (~ In (lower (text token)) ["'s"; "'ve"; "'m"; "'re"] ->
     dep_ token = "aux" ->
     aux_verbs st' = (aux_verbs st ++ [(lower (text token), tag_ token)])%list /\
     main_verbs st' = main_verbs st) /\
    (~ In (lower (text token)) ["'s"; "'ve"; "'m"; "'re"] ->
     dep_ token <> "aux" ->
     main_verbs st' = (main_verbs st ++ [(lower (text token), tag_ token)])%list /\
     aux_verbs st' = aux_verbs st).
Proof.
  intros Hwf Hin Hv.
  destruct (wf_doc_position doc token Hwf Hin) as [Hr _].
  assert (Hi : -1 <= i token) by lia.
  unfold scan_token. rewrite Hv. unfold scan_bucket.
  rewrite (next_token_following doc token Hi). simpl Py.bind.
  rewrite !str_in_single.
  set (st0 := scan_flags (add_verb_token st token) token).
  assert (Ha : aux_verbs st0 = aux_verbs st /\ main_verbs st0 = main_verbs st).
  { unfold st0, scan_flags.
    repeat match goal with
           | |- context [if ?b then _ else _] => destruct b
           end; simpl; auto. }
  destruct Ha as [Ha Hm].
  destruct (lower (text token) == "'s") eqn:Es.
  { apply String.eqb_eq in Es. rewrite Es.
    destruct (following doc token) as [n|] eqn:Hn.
    - destruct (tag_ n == "VBG") eqn:Eg.
      + apply String.eqb_eq in Eg. settle_bucket.
      + assert (Hno : ~ (exists m, Some n = Some m /\ tag_ m = "VBG")).
        { intros [m [Hm' Hg]]. injection Hm' as <-.
          apply String.eqb_neq in Eg. contradiction. }
        destruct (lower (text n) == "been"); settle_bucket.
    - assert (Hno : ~ (exists m, @None Token = Some m /\ tag_ m = "VBG")).
      { intros [m [Hm' _]]. discriminate. }
      settle_bucket. }
  destruct (lower (text token) == "'ve") eqn:Ev.
  { apply String.eqb_eq in Ev. rewrite Ev. settle_bucket. }
  destruct (lower (text token) == "'m") eqn:Em.
  { apply String.eqb_eq in Em. rewrite Em. settle_bucket. }
  destruct (lower (text token) == "'re") eqn:Er.
  { apply String.eqb_eq in Er. rewrite Er. settle_bucket. }
  apply String.eqb_neq in Es, Ev, Em, Er.
  destruct (dep_ token == "aux") eqn:Ed.
  - apply String.eqb_eq in Ed. settle_bucket.
  - apply String.eqb_neq in Ed. settle_bucket.
Qed.

Lemma contracted_auxiliaries_witness :
  exists st',
    scan_token doc_raining scan_init (tok 1 "'s" "AUX" "VBZ" "aux" 3 []) = Ret st' /\
    aux_verbs st' = [("has", "VBZ")] /\ main_verbs st' = [].
Proof.
  destruct (contracted_auxiliaries doc_raining scan_init
              (tok 1 "'s" "AUX" "VBZ" "aux" 3 []))
    as [st' [Hrun [_ [Hhas _]]]].
  - reflexivity.
  - simpl. tauto.
  - reflexivity.
  - exists st'. split; [exact Hrun|]. apply Hhas.
    + reflexivity.
    + intros [n [Hn Hg]]. vm_compute in Hn. injection Hn as <-. discriminate.
Defined.

(* ================================================================== *)
(** ** Properties of [_analyze_voice] *)

Lemma verb_pattern_any (doc : Doc) (p : string * string -> bool) :
  any p (verb_pattern doc) = true <->
  exists t, In t doc /\ is_verb t = true /\ p (lower (text t), tag_ t) = true.
Proof.
  unfold verb_pattern. rewrite any_exists. split.
  - intros [x [Hx Hp]]. apply in_map_iff in Hx. destruct Hx as [t [<- Ht]].
    apply filter_In in Ht. destruct Ht as [Hin Hv]. now exists t.
  - intros [t [Hin [Hv Hp]]]. exists (lower (text t), tag_ t).
    split; [|exact Hp]. apply in_map_iff. exists t. split; [reflexivity|].
    apply filter_In. now split.
Qed.

Lemma voice_passive_spec (doc : Doc) :
  _analyze_voice doc = Passive <->
  (exists t, In t doc /\ is_verb t = true /\ In (lower (text t)) be_verbs) /\
  (exists t, In t doc /\ is_verb t = true /\ tag_ t = "VBN") /\
  ~ (exists t, In t doc /\ is_verb t = true /\
               In (lower (text t)) ["have"; "has"; "had"]).
Proof.
  unfold _analyze_voice.
  pose proof (verb_pattern_any doc (fun p => str_in (fst p) be_verbs)) as Hbe.
  pose proof (verb_pattern_any doc (fun p => snd p == "VBN")) as Hpp.
  pose proof (verb_pattern_any doc
                (fun p => str_in (fst p) ["have"; "has"; "had"])) as Hhave.
  cbn [fst snd] in Hbe, Hpp, Hhave.
  destruct (any (fun p => str_in (fst p) be_verbs) (verb_pattern doc));
    destruct (any (fun p => snd p == "VBN") (verb_pattern doc));
    destruct (any (fun p => str_in (fst p) ["have"; "has"; "had"])
                  (verb_pattern doc));
    cbn [andb negb]; split; try discriminate; try reflexivity.
  all: try (intros [[t [Hin [Hv Hb]]] _];
            assert (Hc : false = true)
              by (apply Hbe; exists t; repeat split; auto;
                  now apply str_in_In);
            discriminate).
  all: try (intros [_ [[t [Hin [Hv Hb]]] _]];
            assert (Hc : false = true)
              by (apply Hpp; exists t; repeat split; auto;
                  now apply String.eqb_eq);
            discriminate).
  - intros [_ [_ Hno]]. exfalso. apply Hno.
    destruct (proj1 Hhave eq_refl) as [t [Hin [Hv Hh]]].
    exists t. repeat split; auto. now apply str_in_In.
  - intros _. repeat split.
    + destruct (proj1 Hbe eq_refl) as [t [Hin [Hv Hb]]].
      exists t. repeat split; auto. now apply str_in_In.
    + destruct (proj1 Hpp eq_refl) as [t [Hin [Hv Hb]]].
      exists t. repeat split; auto. now apply String.eqb_eq.
    + intros [t [Hin [Hv Hh]]].
      assert (Hc : false = true)
        by (apply Hhave; exists t; repeat split; auto; now apply str_in_In).
      discriminate.
Qed.

(** C2: the voice is "passive" exactly when some VERB/AUX token has a
    lower-cased text among am, is, are, was, were, be, been, some VERB/AUX
    token is tagged VBN, and no VERB/AUX token has a lower-cased text among
    have, has, had; otherwise it is "active". *)
Theorem voice_passive_iff (doc : Doc) :
  (_analyze_voice doc = Passive <->
   (exists t, In t doc /\ is_verb t = true /\ In (lower (text t)) be_verbs) /\
   (exists t, In t doc /\ is_verb t = true /\ tag_ t = "VBN") /\
   ~ (exists t, In t doc /\ is_verb t = true /\
                In (lower (text t)) ["have"; "has"; "had"])) /\
  (_analyze_voice doc <> Passive -> _analyze_voice doc = Active).
Proof.
  split.
  - apply voice_passive_spec.
  - destruct (_analyze_voice doc); [congruence | reflexivity].
Qed.

(** "The food was being cooked." is passive; "The report has been
    written." is not, because of "has". *)
Lemma voice_passive_iff_witness :
  _analyze_voice doc_cooked = Passive /\ _analyze_voice doc_written = Active.
Proof.
  split.
  - apply (proj2 (proj1 (voice_passive_iff doc_cooked))).
    split; [|split].
    + exists (tok 2 "was" "AUX" "VBD" "aux" 4 ["Sing"]).
      repeat split; simpl; tauto.
    + exists (tok 4 "cooked" "VERB" "VBN" "ROOT" 4 []).
      repeat split; simpl; tauto.
    + intros [t [Hin [_ Hh]]]. simpl in Hin.
      repeat (destruct Hin as [<-|Hin];
              [simpl in Hh; repeat (destruct Hh as [Hh|Hh]; try discriminate Hh);
               exact Hh|]).
      exact Hin.
  - apply (proj2 (voice_passive_iff doc_written)). discriminate.
Defined.

(* ================================================================== *)
(** ** "The food was being cooked." *)

Lemma scan_flags_buckets (st : ScanState) (t : Token) :
  aux_verbs (scan_flags st t) = aux_verbs st /\
  main_verbs (scan_flags st t) = main_verbs st.
Proof.
  unfold scan_flags.
  repeat match goal with
         | |- context [if ?b then _ else _] => destruct b
         end; simpl; auto.
Qed.

(** The auxiliary list only grows. *)
Lemma scan_token_aux_kept (doc : Doc) (st st' : ScanState) (t : Token)
      (x : string * string) :
  scan_token doc st t = Ret st' -> In x (aux_verbs st) -> In x (aux_verbs st').
Proof.
  unfold scan_token. destruct (is_verb t).
  2:{ intros H. now injection H as <-. }
  unfold scan_bucket.
  destruct (scan_flags_buckets (add_verb_token st t) t) as [Ha _].
  simpl in Ha. revert Ha.
  generalize (scan_flags (add_verb_token st t) t). intros st0 Ha.
  destruct (next_token doc t) as [nxt|e]; cbn [Py.bind];
    repeat match goal with
           | |- context [if ?b then _ else _] => destruct b
           end;
    intros H; try discriminate; injection H as <-; simpl; rewrite ?Ha;
    intros Hx; try apply in_or_app; auto.
Qed.

Lemma scan_loop_aux_kept (doc : Doc) (todo : list Token) (x : string * string) :
  forall st st',
  scan_loop doc st todo = Ret st' -> In x (aux_verbs st) -> In x (aux_verbs st').
Proof.
  induction todo as [|t rest IH]; intros st st' H Hx; simpl in H.
  - now injection H as <-.
  - destruct (scan_token doc st t) as [st1|e] eqn:H1; [|discriminate].
    simpl in H. apply (IH st1 st' H).
    now apply (scan_token_aux_kept doc st st1 t).
Qed.

(** A VERB/AUX token in relation [aux] whose text is not a contraction is
    recorded with its lower-cased text. *)
Lemma scan_token_aux_added (doc : Doc) (st st' : ScanState) (t : Token) :
  scan_token doc st t = Ret st' ->
  is_verb t = true -> dep_ t = "aux" ->
  ~ In (lower (text t)) ["'s"; "'ve"; "'m"; "'re"] ->
  In (lower (text t), tag_ t) (aux_verbs st').
Proof.
  intros H Hv Hd Hc. unfold scan_token in H. rewrite Hv in H.
  unfold scan_bucket in H. rewrite !str_in_single, Hd in H.
  destruct (lower (text t) == "'s") eqn:Es;
    [apply String.eqb_eq in Es; exfalso; apply Hc; simpl; auto|].
  destruct (lower (text t) == "'ve") eqn:Ev;
    [apply String.eqb_eq in Ev; exfalso; apply Hc; simpl; auto|].
  destruct (lower (text t) == "'m") eqn:Em;
    [apply String.eqb_eq in Em; exfalso; apply Hc; simpl; auto|].
  destruct (lower (text t) == "'re") eqn:Er;
    [apply String.eqb_eq in Er; exfalso; apply Hc; simpl; auto 6|].
  simpl in H. injection H as <-. simpl. apply in_or_app. right. now left.
Qed.

Lemma scan_loop_aux_added (doc : Doc) (todo : list Token) (t : Token) :
  forall st st',
  scan_loop doc st todo = Ret st' -> In t todo ->
  is_verb t = true -> dep_ t = "aux" ->
  ~ In (lower (text t)) ["'s"; "'ve"; "'m"; "'re"] ->
  In (lower (text t), tag_ t) (aux_verbs st').
Proof.
  induction todo as [|u rest IH]; intros st st' H Hin Hv Hd Hc; [destruct Hin|].
  simpl in H.
  destruct (scan_token doc st u) as [st1|e] eqn:H1; [|discriminate].
  simpl in H. destruct Hin as [->|Hin].
  - apply (scan_loop_aux_kept doc rest _ st1 st' H).
    now apply (scan_token_aux_added doc st st1 t).
  - now apply (IH st1 st' H).
Qed.

(** Every sentence with the configuration of "The food was being cooked."
    ("was" an AUX in relation [aux], an AUX tagged VBG, a VERB tagged VBN,
    no have, has, had or been) is passive in voice and gets its tense from
    the progressive block: [has_been] is false, [has_ing_form] is true and
    "was" is among the auxiliaries, so the perfect and passive blocks are
    not reached. *)
Lemma was_being_configuration (doc : Doc) :
  wf_doc doc ->
  (exists t, In t doc /\ lower (text t) = "was" /\ pos_ t = "AUX" /\
             dep_ t = "aux") ->
  (exists t, In t doc /\ pos_ t = "AUX" /\ tag_ t = "VBG") ->
  (exists t, In t doc /\ pos_ t = "VERB" /\ tag_ t = "VBN") ->
  (forall t, In t doc ->
             ~ In (lower (text t)) ["have"; "has"; "had"; "been"]) ->
  _analyze_voice doc = Passive /\
  exists st r,
    tense_scan doc = Ret st /\ has_been st = false /\
    block_perfect_progressive st = None /\
    block_progressive st = Some r /\
    (r = PresentProgressive \/ r = PastProgressive) /\
    _analyze_tense doc = Ret r.
Proof.
  intros Hwf [w [Hw [Hwt [Hwp Hwd]]]] [g [Hg [Hgp Hgt]]] [c [Hc [Hcp Hct]]] Hno.
  assert (Hwv : is_verb w = true) by (unfold is_verb; now rewrite Hwp).
  assert (Hgv : is_verb g = true) by (unfold is_verb; now rewrite Hgp).
  assert (Hcv : is_verb c = true) by (unfold is_verb; now rewrite Hcp).
  split.
  { apply voice_passive_spec. split; [|split].
    - exists w. repeat split; auto. rewrite Hwt. simpl. tauto.
    - exists c. auto.
    - intros [t [Hin [_ Hh]]]. apply (Hno t Hin). simpl in *. tauto. }
  destruct (tense_scan_returns doc Hwf) as [st Hst].
  destruct (tense_scan_flags doc st Hwf Hst) as [Hing [_ [Hbeen _]]].
  assert (Hb : has_been st = false).
  { rewrite Hbeen. destruct (existsb been_token doc) eqn:He; [|reflexivity].
    apply existsb_exists in He. destruct He as [t [Hin Ht]].
    unfold been_token in Ht. rewrite !andb_true_iff in Ht.
    destruct Ht as [_ Ht]. apply String.eqb_eq in Ht.
    exfalso. apply (Hno t Hin). rewrite Ht. simpl. tauto. }
  assert (Hi : has_ing_form st = true).
  { rewrite Hing. apply existsb_exists. exists g. split; [exact Hg|].
    unfold gerund_token. now rewrite Hgv, Hgt. }
  assert (Hwas : any_aux ["was"; "were"] st = true).
  { apply any_exists. exists (lower (text w), tag_ w). split.
    - apply (scan_loop_aux_added doc doc w scan_init st Hst Hw Hwv Hwd).
      rewrite Hwt. simpl. intros [H|[H|[H|[H|[]]]]]; discriminate.
    - simpl. now rewrite Hwt. }
  assert (Hpp : block_perfect_progressive st = None)
    by (unfold block_perfect_progressive; now rewrite Hb).
  assert (Hpr : exists r, block_progressive st = Some r /\
                          (r = PresentProgressive \/ r = PastProgressive)).
  { unfold block_progressive. rewrite Hi, Hwas.
    destruct (any_aux ["am"; "is"; "are"; "'m"; "'s"; "'re"] st); eauto. }
  destruct Hpr as [r [Hr Hcase]].
  exists st, r. repeat split; auto.
  unfold _analyze_tense. rewrite Hst. cbn [Py.bind].
  unfold tense_of_scan. rewrite Hpp, Hr. reflexivity.
Qed.

(** C3 (what the code does): on the parse of "The food was being cooked."
    the voice is passive and [has_been] stays false, so the
    perfect-progressive block does not return; but "being" (VBG) sets
    [has_ing_form] and "was" is in the auxiliary list, so the progressive
    block returns "past progressive" and the perfect and passive blocks
    are never reached. *)
Theorem cooked_sentence_is_past_progressive :
  _analyze_voice doc_cooked = Passive /\
  (exists st,
     tense_scan doc_cooked = Ret st /\
     has_been st = false /\ has_ing_form st = true /\
     aux_verbs st = [("was", "VBD")] /\
     block_perfect_progressive st = None /\
     block_progressive st = Some PastProgressive /\
     block_passive st = Some PastPassive) /\
  _analyze_tense doc_cooked = Ret PastProgressive.
Proof.
  split; [reflexivity|]. split; [|reflexivity].
  eexists. split; [reflexivity|]. repeat split.
Qed.

(* ================================================================== *)
(** ** The empty sentence *)

(** C10: on the empty sentence [analyze_grammar] returns the all-default
    result: tense "unknown", voice "active", structure "other", agreement
    and article checks both true. *)
Theorem analyze_grammar_empty :
  analyze_grammar [] = Ret default_analysis /\
  default_analysis = mkAnalysis Unknown Active Other true true.
Proof. split; reflexivity. Qed.

(* ================================================================== *)
(** ** Properties of [_check_article_usage] *)

Lemma needs_articleb_spec (doc : Doc) (t : Token) :
  needs_articleb doc t = true <-> needs_article doc t.
Proof.
  unfold needs_articleb, needs_article.
  rewrite !andb_true_iff, !negb_true_iff, String.eqb_eq, !String.eqb_neq,
    str_in_false.
  assert (Hch : existsb (fun c => str_in (dep_ c) ["poss"; "nummod"])
                        (children doc t) = false <->
                forall c, In c (children doc t) ->
                          ~ In (dep_ c) ["poss"; "nummod"]).
  { split.
    - intros He c Hc Hd. apply str_in_In in Hd.
      assert (Ht : existsb (fun c => str_in (dep_ c) ["poss"; "nummod"])
                           (children doc t) = true)
        by (apply existsb_exists; now exists c).
      congruence.
    - intros Hall.
      destruct (existsb _ (children doc t)) eqn:He; [|reflexivity].
      apply existsb_exists in He. destruct He as [c [Hc Hd]].
      apply str_in_In in Hd. exfalso. exact (Hall c Hc Hd). }
  rewrite Hch.
  assert (Hpr : match preceding doc t with
                | None => true
                | Some p => negb (str_in (pos_ p) ["DET"; "PRON"; "ADJ"; "PROPN"])
                end = true <->
                (preceding doc t = None \/
                 exists p, preceding doc t = Some p /\
                           ~ In (pos_ p) ["DET"; "PRON"; "ADJ"; "PROPN"])).
  { destruct (preceding doc t) as [p|].
    - rewrite negb_true_iff, str_in_false. split.
      + intros H. right. now exists p.
      + intros [H|[q [Hq H]]]; [discriminate | now injection Hq as ->].
    - split; [now left | reflexivity]. }
  rewrite Hpr. tauto.
Qed.

(** One iteration returns [False] exactly on such a noun, and does not
    raise when [i] is within the sentence. *)
Lemma article_step_spec (doc : Doc) (t : Token) :
  i t <= len doc ->
  article_step doc t
  = Ret (if needs_articleb doc t then ReturnFalse else Continue).
Proof.
  intros Hi. unfold article_step, needs_articleb, any.
  rewrite (prev_token_preceding doc t Hi). cbn [Py.bind].
  destruct ((pos_ t == "NOUN") && negb (pos_ t == "PROPN"))%bool;
    [|reflexivity].
  destruct (str_in (lower (text t)) article_exempt); [reflexivity|].
  destruct (existsb _ (children doc t)); [reflexivity|].
  destruct (dep_ t == "pobj"); [reflexivity|].
  destruct (preceding doc t) as [p|]; [|reflexivity].
  destruct (str_in (pos_ p) ["DET"; "PRON"; "ADJ"; "PROPN"]); reflexivity.
Qed.

Lemma article_loop_spec (doc : Doc) (todo : list Token) :
  (forall t, In t todo -> i t <= len doc) ->
  article_loop doc todo = Ret (negb (existsb (needs_articleb doc) todo)).
Proof.
  induction todo as [|t rest IH]; intros Hi; [reflexivity|].
  cbn [article_loop existsb].
  rewrite (article_step_spec doc t (Hi t (or_introl eq_refl))).
  simpl Py.bind. destruct (needs_articleb doc t); [reflexivity|].
  apply IH. intros u Hu. apply Hi. now right.
Qed.

(** The loop stops at a rejected noun: what follows it is not examined. *)
Lemma article_loop_stops (doc : Doc) (pre : list Token) (t : Token)
      (post : list Token) :
  (forall u, In u pre -> i u <= len doc) -> i t <= len doc ->
  needs_articleb doc t = true ->
  article_loop doc (pre ++ t :: post) = Ret false.
Proof.
  induction pre as [|u pre IH]; intros Hpre Ht Hb.
  - cbn [app article_loop]. rewrite (article_step_spec doc t Ht), Hb.
    reflexivity.
  - cbn [app article_loop].
    rewrite (article_step_spec doc u (Hpre u (or_introl eq_refl))).
    simpl Py.bind. destruct (needs_articleb doc u); [reflexivity|].
    apply IH; auto. intros v Hv. apply Hpre. now right.
Qed.

Lemma wf_doc_bound (doc : Doc) (t : Token) :
  wf_doc doc -> In t doc -> i t <= len doc.
Proof.
  intros Hwf Hin. destruct (wf_doc_position doc t Hwf Hin) as [Hr _]. lia.
Qed.

(** The exemption list is matched on the lower-cased text, whatever the
    spelling of the capitals. *)
Example kelvin_work_exempt :
  lower "worK" = "work" /\ lower "WORK" = "work" /\
  _check_article_usage doc_kelvin = Ret true.
Proof. repeat split. Qed.

(** C5: on every sentence (indices matching positions) the article check
    returns false exactly when some token is a NOUN (not PROPN), with
    lower-cased text outside the exemption list, without a dependent in
    relation [poss] or [nummod], not itself a [pobj], and whose immediately
    preceding token is missing or has a part of speech outside DET, PRON,
    ADJ, PROPN; it returns true otherwise; and the loop returns false at
    such a noun whatever tokens were still to be visited after it. *)
Theorem article_check_false_iff (doc : Doc) :
  wf_doc doc ->
  (_check_article_usage doc = Ret false <->
   exists t, In t doc /\ needs_article doc t) /\
  (~ (exists t, In t doc /\ needs_article doc t) ->
   _check_article_usage doc = Ret true) /\
  (forall pre t post,
     (forall u, In u pre -> In u doc) -> In t doc -> needs_article doc t ->
     article_loop doc (pre ++ t :: post) = Ret false).
Proof.
  intros Hwf.
  assert (Hrun : _check_article_usage doc
                 = Ret (negb (existsb (needs_articleb doc) doc))).
  { apply article_loop_spec. intros t Ht. now apply wf_doc_bound. }
  assert (Hex : existsb (needs_articleb doc) doc = true <->
                exists t, In t doc /\ needs_article doc t).
  { rewrite existsb_exists. split; intros [t [Hin Hb]]; exists t;
      (split; [exact Hin|]); now apply needs_articleb_spec. }
  repeat split.
  - rewrite Hrun. intros H. apply Hex.
    destruct (existsb (needs_articleb doc) doc); [reflexivity | discriminate].
  - intros H. rewrite Hrun. apply Hex in H. now rewrite H.
  - intros Hno. rewrite Hrun.
    destruct (existsb (needs_articleb doc) doc) eqn:He; [|reflexivity].
    exfalso. apply Hno. now apply Hex.
  - intros pre t post Hpre Hin Hb. apply article_loop_stops.
    + intros u Hu. apply wf_doc_bound; auto.
    + now apply wf_doc_bound.
    + now apply needs_articleb_spec.
Qed.

Lemma article_check_false_iff_witness :
  _check_article_usage doc_dogs = Ret false /\
  _check_article_usage doc_writing = Ret true.
Proof.
  split.
  - apply (proj1 (article_check_false_iff doc_dogs eq_refl)).
    exists (tok 0 "Dogs" "NOUN" "NNS" "nsubj" 1 ["Plur"]).
    split; [simpl; tauto|].
    apply needs_articleb_spec. reflexivity.
  - apply (proj1 (proj2 (article_check_false_iff doc_writing eq_refl))).
    intros [t [Hin Hb]]. apply needs_articleb_spec in Hb.
    simpl in Hin.
    repeat (destruct Hin as [<-|Hin]; [discriminate Hb|]).
    exact Hin.
Defined.

(* ================================================================== *)
(** ** Properties of [_check_subject_verb_agreement] *)

Lemma list_eqb_neq (a b : list string) : list_eqb a b = false <-> a <> b.
Proof.
  rewrite <- list_eqb_eq. destruct (list_eqb a b); split; congruence.
Qed.

Lemma agreement_step_false (doc : Doc) (t : Token) :
  agreement_step doc t = ReturnFalse <-> disagrees doc t.
Proof.
  unfold agreement_step, disagrees.
  rewrite <- !truthy_true, <- list_eqb_neq, <- !String.eqb_eq.
  destruct (dep_ t == "nsubj"), (pos_ (token_head doc t) == "VERB"),
    (truthy (number t)), (truthy (number (token_head doc t))),
    (list_eqb (number t) (number (token_head doc t)));
    simpl; split; try discriminate; try tauto;
    intros [? [? [? [? ?]]]]; discriminate.
Qed.

Lemma agreement_step_cases (doc : Doc) (t : Token) :
  agreement_step doc t = Continue \/ agreement_step doc t = ReturnFalse.
Proof. destruct (agreement_step doc t); auto. Qed.

Lemma agreement_loop_false (doc : Doc) (todo : list Token) :
  agreement_loop doc todo = false <->
  exists t, In t todo /\ disagrees doc t.
Proof.
  induction todo as [|u rest IH]; simpl.
  - split; [discriminate | intros [t [[] _]]].
  - destruct (agreement_step doc u) eqn:Hs.
    + rewrite IH. split.
      * intros [t [Hin Hd]]. exists t. auto.
      * intros [t [[<-|Hin] Hd]].
        -- apply agreement_step_false in Hd. congruence.
        -- now exists t.
    + split; [|reflexivity]. intros _. exists u.
      split; [now left | now apply agreement_step_false].
Qed.

(** C6: the agreement check returns false exactly when some token has
    [dep_] "nsubj", a head with part of speech VERB, and a number that is
    present on both and differs; a pair lacking the number on either side
    is skipped; and the loop returns false at a disagreeing pair whatever
    tokens were still to be visited after it. *)
Theorem agreement_check_false_iff (doc : Doc) :
  (_check_subject_verb_agreement doc = false <->
   exists t, In t doc /\ disagrees doc t) /\
  (forall t, dep_ t = "nsubj" -> pos_ (token_head doc t) = "VERB" ->
             number t = [] \/ number (token_head doc t) = [] ->
             agreement_step doc t = Continue) /\
  (forall pre t post, disagrees doc t ->
                      agreement_loop doc (pre ++ t :: post) = false) /\
  (forall t rest, disagrees doc t -> agreement_loop doc (t :: rest) = false).
Proof.
  repeat split.
  - apply agreement_loop_false.
  - apply agreement_loop_false.
  - intros t _ _ Habs.
    destruct (agreement_step_cases doc t) as [H|H]; [exact H|].
    apply agreement_step_false in H.
    destruct H as [_ [_ [Hn [Hh _]]]]. destruct Habs; contradiction.
  - intros pre t post Hd. apply agreement_loop_false. exists t.
    split; [|exact Hd]. apply in_or_app. right. now left.
  - intros t rest Hd. apply agreement_step_false in Hd. simpl.
    now rewrite Hd.
Qed.

Lemma agreement_check_false_iff_witness :
  _check_subject_verb_agreement doc_barks = false /\
  agreement_step doc_broke (tok 1 "window" "NOUN" "NN" "nsubj" 2 ["Sing"])
  = Continue.
Proof.
  split.
  - apply (proj1 (agreement_check_false_iff doc_barks)).
    exists (tok 0 "Dogs" "NOUN" "NNS" "nsubj" 1 ["Plur"]).
    split; [simpl; tauto|].
    unfold disagrees. simpl. repeat split; discriminate.
  - apply (proj1 (proj2 (agreement_check_false_iff doc_broke))).
    + reflexivity.
    + reflexivity.
    + right. reflexivity.
Defined.

(* ================================================================== *)
(** ** Totality of [analyze_grammar] *)

Lemma scan_loop_no_verbs (doc : Doc) (todo : list Token) : forall st,
  (forall t, In t todo -> is_verb t = false) ->
  scan_loop doc st todo = Ret st.
Proof.
  induction todo as [|t rest IH]; intros st Hno; [reflexivity|].
  simpl. unfold scan_token. rewrite (Hno t (or_introl eq_refl)). simpl.
  apply IH. intros u Hu. apply Hno. now right.
Qed.

Lemma filter_none {A : Type} (p : A -> bool) (l : list A) :
  (forall x, In x l -> p x = false) -> filter p l = [].
Proof.
  induction l as [|x l IH]; intros H; [reflexivity|].
  simpl. rewrite (H x (or_introl eq_refl)). apply IH.
  intros y Hy. apply H. now right.
Qed.

Lemma analyze_grammar_returns (doc : Doc) :
  wf_doc doc ->
  exists st,
    tense_scan doc = Ret st /\
    analyze_grammar doc
    = Ret (mkAnalysis (tense_of_scan st) (_analyze_voice doc)
             (_analyze_structure doc) (_check_subject_verb_agreement doc)
             (negb (existsb (needs_articleb doc) doc))).
Proof.
  intros Hwf. destruct (tense_scan_returns doc Hwf) as [st Hst].
  exists st. split; [exact Hst|].
  unfold analyze_grammar, _analyze_tense. rewrite Hst. cbn [Py.bind].
  unfold _check_article_usage at 1. rewrite article_loop_spec.
  - reflexivity.
  - intros t Ht. now apply wf_doc_bound.
Qed.

(** C9: on every well-formed sentence (each [i] equal to the position)
    [analyze_grammar] returns a result and does not raise; the look-ahead
    of a token in last position and the look-behind of a token in first
    position return [None], and inside the sentence both lookups return;
    and each analysis gives its default when the sentence has nothing for
    it to act on: "unknown", "active" and "other" without a VERB/AUX
    token, agreement true without an [nsubj] token, article true without a
    NOUN token. *)
Theorem analyze_grammar_total (doc : Doc) :
  wf_doc doc ->
  (exists r, analyze_grammar doc = Ret r /\
     ((forall t, In t doc -> is_verb t = false) ->
      tense r = Unknown /\ voice r = Active /\ structure r = Other) /\
     ((forall t, In t doc -> dep_ t <> "nsubj") -> agreement r = true) /\
     ((forall t, In t doc -> pos_ t <> "NOUN") -> article r = true)) /\
  (forall t, In t doc -> i t + 1 = len doc -> next_token doc t = Ret None) /\
  (forall t, In t doc -> i t = 0 -> prev_token doc t = Ret None) /\
  (forall t, In t doc ->
     next_token doc t = Ret (following doc t) /\
     prev_token doc t = Ret (preceding doc t)).
Proof.
  intros Hwf. split; [|split; [|split]].
  - destruct (analyze_grammar_returns doc Hwf) as [st [Hst Hrun]].
    eexists. split; [exact Hrun|]. cbn [tense voice structure agreement article].
    split; [|split].
    + intros Hno.
      assert (Hst0 : st = scan_init).
      { unfold tense_scan in Hst.
        rewrite (scan_loop_no_verbs doc doc scan_init Hno) in Hst.
        now injection Hst as <-. }
      subst st. split; [reflexivity|].
      unfold _analyze_voice, _analyze_structure, verb_pattern, verbs.
      rewrite (filter_none is_verb doc Hno). simpl.
      split; [reflexivity|]. now rewrite andb_false_r.
    + intros Hno.
      destruct (_check_subject_verb_agreement doc) eqn:Hg; [reflexivity|].
      apply agreement_loop_false in Hg. destruct Hg as [t [Hin [Hd _]]].
      exfalso. exact (Hno t Hin Hd).
    + intros Hno.
      destruct (existsb (needs_articleb doc) doc) eqn:He; [|reflexivity].
      apply existsb_exists in He. destruct He as [t [Hin Hb]].
      apply needs_articleb_spec in Hb. destruct Hb as [Hn _].
      exfalso. exact (Hno t Hin Hn).
  - intros t _ Hlast. unfold next_token.
    destruct (i t + 1 <? len doc) eqn:Hlt; [|reflexivity].
    apply Z.ltb_lt in Hlt. lia.
  - intros t _ Hfirst. unfold prev_token. now rewrite Hfirst.
  - intros t Hin. destruct (wf_doc_position doc t Hwf Hin) as [Hr _].
    split.
    + apply next_token_following. lia.
    + apply prev_token_preceding. lia.
Qed.

Lemma analyze_grammar_total_witness :
  exists r, analyze_grammar doc_cooked = Ret r.
Proof.
  destruct (analyze_grammar_total doc_cooked eq_refl) as [[r [Hr _]] _].
  exists r. exact Hr.
Defined.

(* ================================================================== *)
(** ** The scan in closed form: proofs *)

Lemma aux_entry_step (doc : Doc) (st st' : ScanState) (t : Token) :
  -1 <= i t -> scan_token doc st t = Ret st' ->
  aux_verbs st' = (aux_verbs st ++ aux_entry doc t)%list /\
  main_verbs st' = (main_verbs st ++ main_entry t)%list.
Proof.
  intros Hi. unfold scan_token, aux_entry, main_entry, contractions.
  destruct (is_verb t).
  2:{ intros H. injection H as <-. now rewrite !app_nil_r. }
  unfold scan_bucket. rewrite (next_token_following doc t Hi).
  cbn [Py.bind]. rewrite !str_in_single.
  destruct (scan_flags_buckets (add_verb_token st t) t) as [Ha Hm].
  simpl in Ha, Hm. revert Ha Hm.
  generalize (scan_flags (add_verb_token st t) t). intros st0 Ha Hm.
  unfold str_in. cbn [existsb andb].
  destruct (lower (text t) == "'s").
  { destruct (following doc t) as [n|];
      [destruct (tag_ n == "VBG"); [|destruct (lower (text n) == "been")]|];
      intros H; injection H as <-; simpl; rewrite Ha, Hm, ?app_nil_r; auto. }
  destruct (lower (text t) == "'ve");
    [intros H; injection H as <-; simpl; rewrite Ha, Hm, ?app_nil_r; auto|].
  destruct (lower (text t) == "'m");
    [intros H; injection H as <-; simpl; rewrite Ha, Hm, ?app_nil_r; auto|].
  destruct (lower (text t) == "'re");
    [intros H; injection H as <-; simpl; rewrite Ha, Hm, ?app_nil_r; auto|].
  destruct (dep_ t == "aux");
    intros H; injection H as <-; simpl; rewrite Ha, Hm, ?app_nil_r; auto.
Qed.

Lemma aux_entry_loop (doc : Doc) (todo : list Token) : forall st st',
  (forall t, In t todo -> -1 <= i t) ->
  scan_loop doc st todo = Ret st' ->
  aux_verbs st' = (aux_verbs st ++ flat_map (aux_entry doc) todo)%list /\
  main_verbs st' = (main_verbs st ++ flat_map main_entry todo)%list.
Proof.
  induction todo as [|t rest IH]; intros st st' Hi H; simpl in H.
  - injection H as <-. simpl. now rewrite !app_nil_r.
  - destruct (scan_token doc st t) as [st1|e] eqn:H1; [|discriminate].
    simpl in H.
    destruct (aux_entry_step doc st st1 t (Hi t (or_introl eq_refl)) H1)
      as [Ha Hm].
    destruct (IH st1 st' (fun u Hu => Hi u (or_intror Hu)) H) as [Ha' Hm'].
    rewrite Ha', Hm', Ha, Hm. simpl. now rewrite <- !app_assoc.
Qed.

Lemma tense_scan_closed_form (doc : Doc) :
  wf_doc doc -> tense_scan doc = Ret (scan_result doc).
Proof.
  intros Hwf. destruct (tense_scan_returns doc Hwf) as [st Hst].
  rewrite Hst. f_equal.
  assert (Hi : forall t, In t doc -> -1 <= i t).
  { intros t Ht. destruct (wf_doc_position doc t Hwf Ht) as [Hr _]. lia. }
  destruct (tense_scan_flags doc st Hwf Hst) as [Hg [Hp [Hb Hv]]].
  destruct (aux_entry_loop doc doc scan_init st Hi Hst) as [Ha Hm].
  simpl in Ha, Hm. destruct st; simpl in *. unfold scan_result. congruence.
Qed.

Lemma entry_lengths (doc : Doc) (t : Token) :
  (length (aux_entry doc t) + length (main_entry t))%nat
  = if is_verb t then 1%nat else 0%nat.
Proof.
  unfold aux_entry, main_entry, contractions, str_in. cbn [existsb].
  destruct (is_verb t); [|reflexivity]. cbn [andb].
  destruct (lower (text t) == "'s").
  { destruct (following doc t) as [n|]; [destruct (tag_ n == "VBG")|];
      reflexivity. }
  destruct (lower (text t) == "'ve"); [reflexivity|].
  destruct (lower (text t) == "'m"); [reflexivity|].
  destruct (lower (text t) == "'re"); [reflexivity|].
  destruct (dep_ t == "aux"); reflexivity.
Qed.

Lemma bucket_lengths (doc : Doc) (todo : list Token) :
  (length (flat_map (aux_entry doc) todo) + length (flat_map main_entry todo))%nat
  = length (filter is_verb todo).
Proof.
  induction todo as [|t rest IH]; [reflexivity|].
  cbn [flat_map filter]. rewrite !length_app.
  pose proof (entry_lengths doc t) as Ht.
  destruct (is_verb t); simpl; lia.
Qed.

Lemma existsb_filter {A : Type} (p q : A -> bool) (l : list A) :
  existsb p (filter q l) = existsb (fun x => (q x && p x)%bool) l.
Proof.
  induction l as [|x l IH]; [reflexivity|].
  simpl. destruct (q x); simpl; now rewrite IH.
Qed.

Lemma any_tag_scan_result (doc : Doc) (tags : list string) :
  any_tag tags (scan_result doc) = existsb (verb_tagged tags) doc.
Proof. unfold any_tag, any, scan_result. simpl. apply existsb_filter. Qed.

(** Where an entry of the auxiliary list comes from. *)
Lemma aux_entry_origin (doc : Doc) (t : Token) (w tg : string) :
  In (w, tg) (aux_entry doc t) ->
  is_verb t = true /\
  ((dep_ t = "aux" /\ lower (text t) = w /\ ~ In w contractions) \/
   (In (lower (text t)) contractions /\
    In w ["is"; "has"; "have"; "am"; "are"])).
Proof.
  unfold aux_entry, contractions. destruct (is_verb t); [|intros []].
  intros H. split; [reflexivity|].
  destruct (lower (text t) == "'s") eqn:Es.
  { apply String.eqb_eq in Es. right. rewrite Es.
    split; [simpl; auto|].
    destruct (following doc t) as [n|]; [destruct (tag_ n == "VBG")|];
      destruct H as [H|[]]; injection H as <- _; simpl; auto. }
  destruct (lower (text t) == "'ve") eqn:Ev.
  { apply String.eqb_eq in Ev. right. rewrite Ev.
    destruct H as [H|[]]. injection H as <- _. simpl. auto. }
  destruct (lower (text t) == "'m") eqn:Em.
  { apply String.eqb_eq in Em. right. rewrite Em.
    destruct H as [H|[]]. injection H as <- _. simpl. auto 6. }
  destruct (lower (text t) == "'re") eqn:Er.
  { apply String.eqb_eq in Er. right. rewrite Er.
    destruct H as [H|[]]. injection H as <- _. simpl. auto 7. }
  apply String.eqb_neq in Es, Ev, Em, Er.
  destruct (dep_ t == "aux") eqn:Ed; [|destruct H].
  apply String.eqb_eq in Ed. destruct H as [H|[]]. injection H as <- _.
  left. repeat split; auto.
  simpl. intros [H|[H|[H|[H|[]]]]]; congruence.
Qed.

Lemma aux_entry_not_contraction (doc : Doc) (t : Token) (w tg : string) :
  In (w, tg) (aux_entry doc t) -> ~ In w contractions.
Proof.
  intros H. destruct (aux_entry_origin doc t w tg H) as [_ [[_ [_ Hn]]|[_ Hw]]].
  - exact Hn.
  - unfold contractions. simpl in *.
    intros [Hc|[Hc|[Hc|[Hc|[]]]]]; subst w;
      repeat (destruct Hw as [Hw|Hw]; try discriminate Hw); exact Hw.
Qed.

(** An auxiliary with one of the given texts, none of which a contraction
    resolves to, is a token in relation [aux] with that text. *)
Lemma any_aux_source (doc : Doc) (forms : list string) :
  (forall w, In w forms -> ~ In w ["is"; "has"; "have"; "am"; "are"]) ->
  any_aux forms (scan_result doc) = true ->
  exists t, In t doc /\ aux_with_text forms t.
Proof.
  intros Hforms H. unfold any_aux in H. apply any_exists in H.
  destruct H as [[w tg] [Hin Hw]]. simpl in Hin, Hw.
  apply str_in_In in Hw. apply in_flat_map in Hin.
  destruct Hin as [t [Ht He]]. exists t. split; [exact Ht|].
  destruct (aux_entry_origin doc t w tg He) as [Hv [[Hd [Hx _]]|[_ Hc]]].
  - unfold aux_with_text. rewrite Hx. auto.
  - exfalso. exact (Hforms w Hw Hc).
Qed.

Lemma any_aux_subset (forms forms' : list string) (st : ScanState) :
  (forall w, In w forms -> In w forms') ->
  any_aux forms st = true -> any_aux forms' st = true.
Proof.
  intros Hsub H. unfold any_aux in *. apply any_exists in H.
  destruct H as [p [Hin Hp]]. apply any_exists. exists p.
  split; [exact Hin|]. apply str_in_In. apply Hsub. now apply str_in_In.
Qed.

Lemma tense_of_scan_conditions (st : ScanState) :
  category_conditions st (tense_of_scan st).
Proof.
  pose proof (any_aux_subset ["am"; "is"; "are"]
                ["am"; "is"; "are"; "'m"; "'s"; "'re"] st) as Hsub.
  assert (Hsub' : any_aux ["am"; "is"; "are"] st = true ->
                  any_aux ["am"; "is"; "are"; "'m"; "'s"; "'re"] st = true).
  { apply Hsub. simpl. tauto. }
  clear Hsub. revert Hsub'.
  unfold tense_of_scan, block_perfect_progressive, block_progressive,
    block_perfect, block_passive, block_simple_past, block_simple_present,
    or_else, category_conditions.
  rewrite any_had_any_aux, any_vbd_any_tag.
  destruct (has_been st), (has_ing_form st), (has_past_participle st);
    destruct (any_aux ["have"; "has"; "'ve"; "'s"] st);
    destruct (any_aux ["had"] st);
    destruct (any_aux ["am"; "is"; "are"; "'m"; "'s"; "'re"] st);
    destruct (any_aux ["was"; "were"] st);
    destruct (any_aux ["am"; "is"; "are"] st);
    destruct (any_tag ["VBD"] st);
    destruct (any_tag ["VBP"; "VBZ"] st);
    cbn; intros Hsub; repeat split; try reflexivity;
    discriminate (Hsub eq_refl).
Qed.

Lemma verb_tagged_split (doc : Doc) :
  existsb (verb_tagged ["VBD"; "VBP"; "VBZ"]) doc
  = (existsb (verb_tagged ["VBD"]) doc
     || existsb (verb_tagged ["VBP"; "VBZ"]) doc)%bool.
Proof.
  induction doc as [|t rest IH]; [reflexivity|].
  cbn [existsb]. rewrite IH.
  generalize (existsb (verb_tagged ["VBD"]) rest)
             (existsb (verb_tagged ["VBP"; "VBZ"]) rest).
  intros a b. unfold verb_tagged, str_in. cbn [existsb].
  destruct (is_verb t), (tag_ t == "VBD"), (tag_ t == "VBP"),
    (tag_ t == "VBZ"), a, b; reflexivity.
Qed.

Lemma tense_evidence_holds (doc : Doc) :
  wf_doc doc ->
  _analyze_tense doc = Ret (tense_of_scan (scan_result doc)) /\
  tense_evidence doc (tense_of_scan (scan_result doc)).
Proof.
  intros Hwf. split.
  { unfold _analyze_tense. now rewrite (tense_scan_closed_form doc Hwf). }
  pose proof (tense_of_scan_conditions (scan_result doc)) as Hc.
  assert (Hhad : any_aux ["had"] (scan_result doc) = true ->
                 exists t, In t doc /\ aux_with_text ["had"] t).
  { apply any_aux_source. simpl.
    intros w [<-|[]] H. repeat (destruct H as [H|H]; try discriminate H).
    exact H. }
  assert (Hwas : any_aux ["was"; "were"] (scan_result doc) = true ->
                 exists t, In t doc /\ aux_with_text ["was"; "were"] t).
  { apply any_aux_source. simpl.
    intros w [<-|[<-|[]]] H;
      repeat (destruct H as [H|H]; try discriminate H); exact H. }
  destruct (tense_of_scan (scan_result doc));
    unfold category_conditions in Hc; unfold tense_evidence;
    rewrite ?any_tag_scan_result in Hc; simpl in Hc;
    try rewrite verb_tagged_split; intuition.
  rewrite H0, H. reflexivity.
Qed.

Lemma any_aux_without_contractions (st : ScanState) (forms forms' : list string) :
  (forall p, In p (aux_verbs st) -> ~ In (fst p) contractions) ->
  (forall w, ~ In w contractions -> str_in w forms = str_in w forms') ->
  any_aux forms st = any_aux forms' st.
Proof.
  unfold any_aux, any. induction (aux_verbs st) as [|p l IH]; intros Hl Hw.
  - reflexivity.
  - cbn [existsb]. rewrite (Hw (fst p) (Hl p (or_introl eq_refl))).
    rewrite IH; auto. intros q Hq. apply Hl. now right.
Qed.

Lemma tense_without_auxiliaries (st : ScanState) :
  aux_verbs st = [] ->
  tense_of_scan st
  = if any_tag ["VBD"] st then SimplePast
    else if any_tag ["VBP"; "VBZ"] st then SimplePresent
    else Unknown.
Proof.
  intros Ha.
  unfold tense_of_scan, block_perfect_progressive, block_progressive,
    block_perfect, block_passive, block_simple_past, block_simple_present,
    or_else.
  rewrite any_vbd_any_tag. unfold any_aux, any_had. rewrite Ha. cbn [any existsb].
  destruct (has_been st), (has_ing_form st), (has_past_participle st),
    (any_tag ["VBD"] st), (any_tag ["VBP"; "VBZ"] st); reflexivity.
Qed.

Lemma aux_entry_none (doc : Doc) (t : Token) :
  auxiliary_token t = false -> aux_entry doc t = [].
Proof.
  unfold auxiliary_token, aux_entry, contractions, str_in. cbn [existsb].
  destruct (is_verb t); [|reflexivity]. cbn [andb].
  destruct (lower (text t) == "'s"); [discriminate|].
  destruct (lower (text t) == "'ve"); [discriminate|].
  destruct (lower (text t) == "'m"); [discriminate|].
  destruct (lower (text t) == "'re"); [discriminate|].
  destruct (dep_ t == "aux"); [discriminate | reflexivity].
Qed.

Lemma flat_map_none {A B : Type} (f : A -> list B) (l : list A) :
  (forall x, In x l -> f x = []) -> flat_map f l = [].
Proof.
  induction l as [|x l IH]; intros H; [reflexivity|].
  simpl. rewrite (H x (or_introl eq_refl)). apply IH.
  intros y Hy. apply H. now right.
Qed.

(* ------------------------------------------------------------------ *)
(** *** Order of the tokens *)

Lemma existsb_permutation {A : Type} (p : A -> bool) (l l' : list A) :
  Permutation l l' -> existsb p l = existsb p l'.
Proof.
  induction 1; simpl.
  - reflexivity.
  - now rewrite IHPermutation.
  - now rewrite !orb_assoc, (orb_comm (p y) (p x)).
  - congruence.
Qed.

Lemma filter_permutation {A : Type} (p : A -> bool) (l l' : list A) :
  Permutation l l' -> Permutation (filter p l) (filter p l').
Proof.
  induction 1; simpl.
  - constructor.
  - destruct (p x); [now constructor | assumption].
  - destruct (p x), (p y); try apply Permutation_refl. constructor.
  - now apply Permutation_trans with (filter p l').
Qed.

Lemma truthy_permutation {A : Type} (l l' : list A) :
  Permutation l l' -> truthy l = truthy l'.
Proof.
  intros H. apply Permutation_length in H.
  destruct l, l'; simpl in *; congruence.
Qed.

(* ------------------------------------------------------------------ *)
(** *** Substrings *)

Lemma prefix_app (a s : string) :
  String.prefix a s = true <-> exists post, s = a ++ post.
Proof.
  revert s. induction a as [|c a IH]; intros s.
  - destruct s; simpl; split; try reflexivity; intros _; eexists; reflexivity.
  - destruct s as [|d s]; simpl.
    + split; [discriminate | intros [post H]; discriminate].
    + destruct (ascii_dec c d) as [->|Hne].
      * rewrite IH. split; intros [post H]; exists post.
        -- now rewrite H.
        -- now injection H.
      * split; [discriminate|]. intros [post H]. injection H as H _.
        congruence.
Qed.

Lemma contains_substring (sub s : string) :
  contains sub s = true <-> substring_of sub s.
Proof.
  unfold substring_of. induction s as [|c s IH].
  - cbn [contains]. destruct (String.prefix sub "") eqn:Hp.
    + apply prefix_app in Hp. destruct Hp as [post Hp].
      split; [intros _; now exists "", post | reflexivity].
    + split; [discriminate|]. intros [pre [post H]].
      destruct pre; simpl in H.
      * assert (Ht : String.prefix sub "" = true)
          by (apply prefix_app; now exists post).
        congruence.
      * discriminate.
  - cbn [contains]. destruct (String.prefix sub (String c s)) eqn:Hp.
    + apply prefix_app in Hp. destruct Hp as [post Hp].
      split; [intros _; now exists "", post | reflexivity].
    + rewrite IH. split.
      * intros [pre [post H]]. exists (String c pre), post. simpl. now rewrite H.
      * intros [pre [post H]]. destruct pre as [|d pre]; simpl in H.
        -- assert (Ht : String.prefix sub (String c s) = true)
             by (apply prefix_app; now exists post).
           congruence.
        -- injection H as _ H. now exists pre, post.
Qed.

Lemma filter_nonempty {A : Type} (p : A -> bool) (l : list A) :
  truthy (filter p l) = existsb p l.
Proof.
  induction l as [|x l IH]; [reflexivity|].
  simpl. destruct (p x); [reflexivity | exact IH].
Qed.

(* ================================================================== *)
(** ** Further properties of [_analyze_tense] *)

(** C1: on every sentence (indices matching positions) the scan leaves
    the data the rules speak of: the auxiliary list made of each token's
    entry, the VERB/AUX tokens, [has_ing_form] true exactly when a
    VERB/AUX token is tagged VBG or is an ['s] followed by a VBG token,
    [has_past_participle] exactly when a VERB/AUX token is tagged VBN,
    [has_been] exactly when such a token reads "been"; and the tense
    returned is the first-match evaluation over that data, in the order of
    the specification, of rules 1 to 6, and "unknown" when no rule
    matches. *)
Theorem analyze_tense_first_match (doc : Doc) :
  wf_doc doc ->
  exists st,
    tense_scan doc = Ret st /\
    aux_verbs st = flat_map (aux_entry doc) doc /\
    all_verb_tokens st = filter is_verb doc /\
    has_ing_form st = existsb (gerund_token doc) doc /\
    has_past_participle st = existsb participle_token doc /\
    has_been st = existsb been_token doc /\
    _analyze_tense doc = Ret (first_match tense_rules st).
Proof.
  intros Hwf. exists (scan_result doc).
  split; [now apply tense_scan_closed_form|].
  repeat (split; [reflexivity|]).
  unfold _analyze_tense. rewrite (tense_scan_closed_form doc Hwf).
  cbn [Py.bind]. now rewrite tense_of_scan_first_match.
Qed.

Lemma analyze_tense_first_match_witness :
  wf_doc doc_raining /\
  exists st,
    tense_scan doc_raining = Ret st /\
    aux_verbs st = flat_map (aux_entry doc_raining) doc_raining /\
    all_verb_tokens st = filter is_verb doc_raining /\
    has_ing_form st = existsb (gerund_token doc_raining) doc_raining /\
    has_past_participle st = existsb participle_token doc_raining /\
    has_been st = existsb been_token doc_raining /\
    _analyze_tense doc_raining = Ret (first_match tense_rules st).
Proof.
  split; [reflexivity | apply (analyze_tense_first_match doc_raining); reflexivity].
Defined.

(** X1: on a sentence whose indices match positions, the scanning loop
    ends with the loop variables given in closed form by [scan_result]
    (each token's contribution to the two buckets, the VERB/AUX tokens in
    order, the three flags as existence tests), and the tense is the first
    matching rule on that data. *)
Theorem tense_closed_form (doc : Doc) :
  wf_doc doc ->
  tense_scan doc = Ret (scan_result doc) /\
  _analyze_tense doc = Ret (first_match tense_rules (scan_result doc)).
Proof.
  intros Hwf. split; [now apply tense_scan_closed_form|].
  unfold _analyze_tense. rewrite (tense_scan_closed_form doc Hwf).
  cbn [Py.bind]. now rewrite tense_of_scan_first_match.
Qed.

Lemma tense_closed_form_witness :
  tense_scan doc_raining = Ret (scan_result doc_raining) /\
  _analyze_tense doc_raining
  = Ret (first_match tense_rules (scan_result doc_raining)).
Proof. apply (tense_closed_form doc_raining). reflexivity. Defined.

(** X2: the scan files every VERB/AUX token in exactly one of the two
    buckets and ignores every other token: the two lists together have as
    many entries as the sentence has VERB/AUX tokens. *)
Theorem every_verb_in_one_bucket (doc : Doc) :
  wf_doc doc ->
  exists st,
    tense_scan doc = Ret st /\
    all_verb_tokens st = filter is_verb doc /\
    (length (aux_verbs st) + length (main_verbs st))%nat
    = length (all_verb_tokens st).
Proof.
  intros Hwf. exists (scan_result doc).
  split; [now apply tense_scan_closed_form|]. split; [reflexivity|].
  unfold scan_result. simpl. apply bucket_lengths.
Qed.

Lemma every_verb_in_one_bucket_witness :
  exists st,
    tense_scan doc_cooked = Ret st /\
    all_verb_tokens st = filter is_verb doc_cooked /\
    (length (aux_verbs st) + length (main_verbs st))%nat
    = length (all_verb_tokens st).
Proof. apply (every_verb_in_one_bucket doc_cooked). reflexivity. Defined.

(** X3: a contraction is never stored under its own text: no entry of the
    auxiliary list is ['s], ['ve], ['m] or ['re].  So these members of the
    sets tested by the tense rules never match, and the sets of rules 1
    and 3 reduce to have/has, that of rule 2 to am/is/are. *)
Theorem contractions_never_stored (doc : Doc) :
  wf_doc doc ->
  exists st,
    tense_scan doc = Ret st /\
    (forall w tg, In (w, tg) (aux_verbs st) -> ~ In w contractions) /\
    any_aux ["have"; "has"; "'ve"; "'s"] st = any_aux ["have"; "has"] st /\
    any_aux ["am"; "is"; "are"; "'m"; "'s"; "'re"] st
    = any_aux ["am"; "is"; "are"] st.
Proof.
  intros Hwf. exists (scan_result doc).
  split; [now apply tense_scan_closed_form|].
  assert (Hno : forall w tg, In (w, tg) (aux_verbs (scan_result doc)) ->
                             ~ In w contractions).
  { intros w tg Hin. simpl in Hin. apply in_flat_map in Hin.
    destruct Hin as [t [_ He]]. now apply (aux_entry_not_contraction doc t w tg). }
  assert (Hp : forall p, In p (aux_verbs (scan_result doc)) ->
                         ~ In (fst p) contractions).
  { intros [w tg] Hin. now apply (Hno w tg). }
  split; [exact Hno|].
  split; apply any_aux_without_contractions; try exact Hp;
    intros w Hw; unfold contractions in Hw; unfold str_in; cbn [existsb];
    destruct (w == "'ve") eqn:Ev;
    try (apply String.eqb_eq in Ev; exfalso; apply Hw; simpl; auto; fail);
    destruct (w == "'s") eqn:Es;
    try (apply String.eqb_eq in Es; exfalso; apply Hw; simpl; auto; fail);
    destruct (w == "'m") eqn:Em;
    try (apply String.eqb_eq in Em; exfalso; apply Hw; simpl; auto; fail);
    destruct (w == "'re") eqn:Er;
    try (apply String.eqb_eq in Er; exfalso; apply Hw; simpl; auto 6; fail);
    now rewrite ?orb_false_r.
Qed.

Lemma contractions_never_stored_witness :
  exists st,
    tense_scan doc_finished = Ret st /\
    (forall w tg, In (w, tg) (aux_verbs st) -> ~ In w contractions) /\
    any_aux ["have"; "has"; "'ve"; "'s"] st = any_aux ["have"; "has"] st /\
    any_aux ["am"; "is"; "are"; "'m"; "'s"; "'re"] st
    = any_aux ["am"; "is"; "are"] st.
Proof. apply (contractions_never_stored doc_finished). reflexivity. Defined.

(** X4: every category returned is backed by tokens of the sentence: the
    perfect-progressive categories by a "been" participle and a gerund, the
    progressive ones by a gerund, the perfect and passive ones by a VBN
    token, the passive ones moreover by the absence of any "been"
    participle and of any gerund; the past categories by a token in
    relation [aux] reading had (perfect) or was/were (progressive,
    passive); "simple past" by a VBD token, "simple present" by a VBP or
    VBZ token and no VBD token, and "unknown" only when no VERB/AUX token
    is tagged VBD, VBP or VBZ. *)
Theorem tense_has_evidence (doc : Doc) :
  wf_doc doc ->
  exists r, _analyze_tense doc = Ret r /\ tense_evidence doc r.
Proof.
  intros Hwf. exists (tense_of_scan (scan_result doc)).
  now apply tense_evidence_holds.
Qed.

Lemma tense_has_evidence_witness :
  exists r, _analyze_tense doc_written = Ret r /\ tense_evidence doc_written r.
Proof. apply (tense_has_evidence doc_written). reflexivity. Defined.

(** X5: without any auxiliary (no VERB/AUX token in relation [aux] and no
    contraction) the tense is "simple past" if some VERB/AUX token is
    tagged VBD, else "simple present" if one is tagged VBP or VBZ, else
    "unknown": the participle and gerund flags alone decide nothing. *)
Theorem no_auxiliary_simple_tense (doc : Doc) :
  wf_doc doc ->
  (forall t, In t doc -> auxiliary_token t = false) ->
  _analyze_tense doc
  = Ret (if existsb (verb_tagged ["VBD"]) doc then SimplePast
         else if existsb (verb_tagged ["VBP"; "VBZ"]) doc then SimplePresent
         else Unknown).
Proof.
  intros Hwf Hno. unfold _analyze_tense.
  rewrite (tense_scan_closed_form doc Hwf). cbn [Py.bind].
  rewrite tense_without_auxiliaries.
  - now rewrite !any_tag_scan_result.
  - simpl. apply flat_map_none. intros t Ht.
    apply aux_entry_none. now apply Hno.
Qed.

Lemma no_auxiliary_simple_tense_witness :
  _analyze_tense doc_broke = Ret SimplePast /\
  _analyze_tense doc_broken = Ret Unknown.
Proof.
  split.
  - apply (no_auxiliary_simple_tense doc_broke); [reflexivity|].
    intros t Ht. simpl in Ht.
    repeat (destruct Ht as [<-|Ht]; [reflexivity|]). destruct Ht.
  - apply (no_auxiliary_simple_tense doc_broken); [reflexivity|].
    intros t Ht. simpl in Ht.
    repeat (destruct Ht as [<-|Ht]; [reflexivity|]). destruct Ht.
Defined.

(** X6: a sentence with a VERB/AUX token tagged VBG is never given a
    passive tense: the gerund flag sends every be-auxiliary to the
    progressive block first, so a progressive passive ("is being built")
    is reported as progressive. *)
Theorem gerund_never_passive_tense (doc : Doc) :
  wf_doc doc ->
  (exists t, In t doc /\ is_verb t = true /\ tag_ t = "VBG") ->
  exists r,
    _analyze_tense doc = Ret r /\ r <> PresentPassive /\ r <> PastPassive.
Proof.
  intros Hwf [t [Hin [Hv Ht]]].
  destruct (tense_evidence_holds doc Hwf) as [Hrun Hev].
  assert (Hg : existsb (gerund_token doc) doc = true).
  { apply existsb_exists. exists t. split; [exact Hin|].
    unfold gerund_token. now rewrite Hv, Ht. }
  exists (tense_of_scan (scan_result doc)). split; [exact Hrun|].
  destruct (tense_of_scan (scan_result doc)); split; try discriminate;
    intros _; simpl in Hev; intuition congruence.
Qed.

Lemma gerund_never_passive_tense_witness :
  exists r,
    _analyze_tense doc_cooked = Ret r /\ r <> PresentPassive /\ r <> PastPassive.
Proof.
  apply (gerund_never_passive_tense doc_cooked); [reflexivity|].
  exists (tok 3 "being" "AUX" "VBG" "auxpass" 4 []).
  repeat split; try reflexivity. simpl. tauto.
Defined.

(* ================================================================== *)
(** ** Tense and voice together *)

(** X7: a sentence whose voice is "passive" is never given the tense
    "past perfect" or "past perfect progressive": these need an auxiliary
    "had", which only a VERB/AUX token reading "had" provides, and such a
    token makes the voice "active". *)
Theorem passive_voice_not_past_perfect (doc : Doc) :
  wf_doc doc -> _analyze_voice doc = Passive ->
  exists r,
    _analyze_tense doc = Ret r /\
    r <> PastPerfect /\ r <> PastPerfectProgressive.
Proof.
  intros Hwf Hvoice.
  destruct (tense_evidence_holds doc Hwf) as [Hrun Hev].
  apply voice_passive_spec in Hvoice. destruct Hvoice as [_ [_ Hno]].
  assert (Hhad : ~ exists t, In t doc /\ aux_with_text ["had"] t).
  { intros [t [Hin [Hv [_ Hx]]]]. apply Hno. exists t.
    repeat split; auto. simpl in *. tauto. }
  exists (tense_of_scan (scan_result doc)). split; [exact Hrun|].
  destruct (tense_of_scan (scan_result doc)); split; try discriminate;
    intros _; simpl in Hev; intuition.
Qed.

Lemma passive_voice_not_past_perfect_witness :
  exists r,
    _analyze_tense doc_cooked = Ret r /\
    r <> PastPerfect /\ r <> PastPerfectProgressive.
Proof.
  apply (passive_voice_not_past_perfect doc_cooked); reflexivity.
Defined.

(* ================================================================== *)
(** ** Further properties of [_analyze_voice] and [_analyze_structure] *)

Lemma existsb_pointwise {A : Type} (p q : A -> bool) (l : list A) :
  (forall x, p x = q x) -> existsb p l = existsb q l.
Proof.
  intros H. induction l as [|x l IH]; [reflexivity|].
  simpl. now rewrite H, IH.
Qed.

Lemma existsb_through_map {A B : Type} (f : A -> B) (q : B -> bool) (l : list A) :
  existsb q (map f l) = existsb (fun x => q (f x)) l.
Proof.
  induction l as [|x l IH]; [reflexivity|]. simpl. now rewrite IH.
Qed.

(** A test that reads only the four attributes gives the same answer on
    sentences with the same attributes in another order. *)
Lemma existsb_content (q : string * string * string * string -> bool)
      (doc doc' : Doc) :
  Permutation (map content doc) (map content doc') ->
  existsb (fun t => q (content t)) doc = existsb (fun t => q (content t)) doc'.
Proof.
  intros Hp.
  rewrite <- (existsb_through_map content q doc).
  rewrite <- (existsb_through_map content q doc').
  now apply existsb_permutation.
Qed.

(** X8: voice and clause structure read only the text, part of speech,
    tag and relation of the tokens, never their order, index or head: two
    sentences whose tokens carry the same four attributes in a different
    order get the same voice and the same structure. *)
Theorem voice_structure_order_free (doc doc' : Doc) :
  Permutation (map content doc) (map content doc') ->
  _analyze_voice doc = _analyze_voice doc' /\
  _analyze_structure doc = _analyze_structure doc'.
Proof.
  intros Hp.
  pose (verb_c := fun c : string * string * string * string =>
                    str_in (snd (fst (fst c))) ["VERB"; "AUX"]).
  pose (be_c := fun c : string * string * string * string =>
                  (verb_c c && str_in (lower (fst (fst (fst c)))) be_verbs)%bool).
  pose (vbn_c := fun c : string * string * string * string =>
                   (verb_c c && (snd (fst c) == "VBN"))%bool).
  pose (have_c := fun c : string * string * string * string =>
                    (verb_c c
                     && str_in (lower (fst (fst (fst c)))) ["have"; "has"; "had"])%bool).
  pose (subj_c := fun c : string * string * string * string =>
                    contains "subj" (snd c)).
  pose (obj_c := fun c : string * string * string * string =>
                   contains "obj" (snd c)).
  assert (Hbe : forall d, any (fun p => str_in (fst p) be_verbs) (verb_pattern d)
                          = existsb (fun t => be_c (content t)) d).
  { intros d. unfold any, verb_pattern.
    rewrite existsb_through_map, existsb_filter. reflexivity. }
  assert (Hvbn : forall d, any (fun p => snd p == "VBN") (verb_pattern d)
                           = existsb (fun t => vbn_c (content t)) d).
  { intros d. unfold any, verb_pattern.
    rewrite existsb_through_map, existsb_filter. reflexivity. }
  assert (Hhave : forall d,
             any (fun p => str_in (fst p) ["have"; "has"; "had"]) (verb_pattern d)
             = existsb (fun t => have_c (content t)) d).
  { intros d. unfold any, verb_pattern.
    rewrite existsb_through_map, existsb_filter. reflexivity. }
  assert (Hsubj : forall d, truthy (subjects d)
                            = existsb (fun t => subj_c (content t)) d).
  { intros d. unfold subjects. now rewrite filter_nonempty. }
  assert (Hverb : forall d, truthy (verbs d)
                            = existsb (fun t => verb_c (content t)) d).
  { intros d. unfold verbs. now rewrite filter_nonempty. }
  assert (Hobj : forall d, truthy (objects d)
                           = existsb (fun t => obj_c (content t)) d).
  { intros d. unfold objects. now rewrite filter_nonempty. }
  split.
  - unfold _analyze_voice. rewrite !Hbe, !Hvbn, !Hhave.
    rewrite (existsb_content be_c doc doc' Hp).
    rewrite (existsb_content vbn_c doc doc' Hp).
    rewrite (existsb_content have_c doc doc' Hp).
    reflexivity.
  - unfold _analyze_structure. rewrite !Hsubj, !Hverb, !Hobj.
    rewrite (existsb_content subj_c doc doc' Hp).
    rewrite (existsb_content verb_c doc doc' Hp).
    rewrite (existsb_content obj_c doc doc' Hp).
    reflexivity.
Qed.

(** "The food was being cooked." and its tokens in reverse order, each
    sentence with its own indices. *)
Lemma voice_structure_order_free_witness :
  wf_doc doc_cooked /\ wf_doc doc_cooked_reversed /\
  _analyze_voice doc_cooked = _analyze_voice doc_cooked_reversed /\
  _analyze_structure doc_cooked = _analyze_structure doc_cooked_reversed.
Proof.
  split; [reflexivity|]. split; [reflexivity|].
  apply (voice_structure_order_free doc_cooked doc_cooked_reversed).
  change (map content doc_cooked_reversed) with (rev (map content doc_cooked)).
  apply Permutation_rev.
Defined.

(** C7: the subjects are exactly the tokens whose [dep_] contains "subj",
    the verbs exactly the tokens whose part of speech is VERB or AUX, the
    objects exactly the tokens whose [dep_] contains "obj"; the structure
    is "SVO" when all three are non-empty, "SV" when subjects and verbs
    are non-empty and objects is empty, "other" when subjects or verbs is
    empty. *)
Theorem structure_cases (doc : Doc) :
  (forall t, In t (subjects doc) <->
             In t doc /\ substring_of "subj" (dep_ t)) /\
  (forall t, In t (verbs doc) <->
             In t doc /\ (pos_ t = "VERB" \/ pos_ t = "AUX")) /\
  (forall t, In t (objects doc) <->
             In t doc /\ substring_of "obj" (dep_ t)) /\
  (subjects doc <> [] -> verbs doc <> [] -> objects doc <> [] ->
   _analyze_structure doc = SVO) /\
  (subjects doc <> [] -> verbs doc <> [] -> objects doc = [] ->
   _analyze_structure doc = SV) /\
  (subjects doc = [] \/ verbs doc = [] -> _analyze_structure doc = Other).
Proof.
  split; [|split; [|split]].
  - intros t. unfold subjects. rewrite filter_In, contains_substring.
    reflexivity.
  - intros t. unfold verbs, is_verb. rewrite filter_In, str_in_In.
    simpl. intuition congruence.
  - intros t. unfold objects. rewrite filter_In, contains_substring.
    reflexivity.
  - unfold _analyze_structure. repeat split.
    + intros Hs Hv Ho. apply truthy_true in Hs, Hv, Ho.
      now rewrite Hs, Hv, Ho.
    + intros Hs Hv Ho. apply truthy_true in Hs, Hv. apply truthy_false in Ho.
      now rewrite Hs, Hv, Ho.
    + intros [Hs|Hv].
      * apply truthy_false in Hs. now rewrite Hs.
      * apply truthy_false in Hv. rewrite Hv. now rewrite andb_false_r.
Qed.

(** The three cases on sample sentences: "He is writing a letter." is SVO,
    "The window broke." is SV and a sentence without a verb is "other". *)
Lemma structure_cases_witness :
  _analyze_structure doc_writing = SVO /\
  _analyze_structure doc_broke = SV /\
  _analyze_structure [tok 0 "Hello" "INTJ" "UH" "ROOT" 0 []] = Other.
Proof.
  split; [|split].
  - apply (proj1 (proj2 (proj2 (proj2 (structure_cases doc_writing)))));
      discriminate.
  - apply (proj1 (proj2 (proj2 (proj2 (proj2 (structure_cases doc_broke))))));
      [discriminate | discriminate | reflexivity].
  - apply (proj2 (proj2 (proj2 (proj2 (proj2
             (structure_cases [tok 0 "Hello" "INTJ" "UH" "ROOT" 0 []])))))).
    left. reflexivity.
Defined.

(** X9: the structure is decided by substrings of the relation labels:
    "SVO" exactly when some label contains "subj", some token is VERB/AUX
    and some label contains "obj" (so [nsubjpass] counts as a subject and
    [pobj] as an object); "SV" exactly when the first two hold and no
    label contains "obj"; "other" exactly when no label contains "subj" or
    no token is VERB/AUX. *)
Theorem structure_by_substring (doc : Doc) :
  let S := exists t, In t doc /\ substring_of "subj" (dep_ t) in
  let V := exists t, In t doc /\ is_verb t = true in
  let O := exists t, In t doc /\ substring_of "obj" (dep_ t) in
  (_analyze_structure doc = SVO <-> S /\ V /\ O) /\
  (_analyze_structure doc = SV <-> S /\ V /\ ~ O) /\
  (_analyze_structure doc = Other <-> ~ S \/ ~ V).
Proof.
  intros S V O.
  assert (HS : existsb (fun t => contains "subj" (dep_ t)) doc = true <-> S).
  { rewrite existsb_exists. unfold S.
    split; intros [t [Hin H]]; exists t; (split; [exact Hin|]);
      now apply contains_substring. }
  assert (HO : existsb (fun t => contains "obj" (dep_ t)) doc = true <-> O).
  { rewrite existsb_exists. unfold O.
    split; intros [t [Hin H]]; exists t; (split; [exact Hin|]);
      now apply contains_substring. }
  assert (HV : existsb is_verb doc = true <-> V)
    by (rewrite existsb_exists; reflexivity).
  unfold _analyze_structure, subjects, verbs, objects.
  rewrite !filter_nonempty.
  destruct (existsb (fun t => contains "subj" (dep_ t)) doc),
    (existsb is_verb doc), (existsb (fun t => contains "obj" (dep_ t)) doc);
    cbn [andb]; repeat split; try discriminate; try tauto;
    intuition discriminate.
Qed.

(* ================================================================== *)
(** ** [context.py]: strings and dictionaries *)

Lemma split_nonempty (c : ascii) (s : string) : Context.split c s <> [].
Proof.
  destruct s as [|d r]; simpl; [discriminate|].
  destruct (Context.split c r); [discriminate|].
  destruct (Ascii.eqb d c); discriminate.
Qed.

(** Splitting distributes over a separator. *)
Lemma split_app (c : ascii) (a b : string) :
  Context.split c (a ++ String c b)
  = (Context.split c a ++ Context.split c b)%list.
Proof.
  induction a as [|d a IH]; simpl.
  - pose proof (split_nonempty c b) as Hb.
    destruct (Context.split c b); [contradiction|].
    now rewrite Ascii.eqb_refl.
  - rewrite IH. pose proof (split_nonempty c a) as Ha.
    destruct (Context.split c a) as [|p ps]; [contradiction|].
    simpl. destruct (Ascii.eqb d c); reflexivity.
Qed.

Lemma prefix_empty (s : string) : String.prefix "" s = true.
Proof. destruct s; reflexivity. Qed.

Lemma split_without_separator (c : ascii) (s : string) :
  contains (String c "") s = false -> Context.split c s = [s].
Proof.
  induction s as [|d r IH]; [reflexivity|].
  cbn [contains]. simpl String.prefix.
  destruct (ascii_dec c d) as [->|Hne].
  - now rewrite prefix_empty.
  - intros H. simpl. rewrite (IH H).
    assert (He : Ascii.eqb d c = false)
      by (apply Ascii.eqb_neq; congruence).
    now rewrite He.
Qed.

Lemma last_app_nonempty {A : Type} (l l' : list A) (d : A) :
  l' <> [] -> last (l ++ l') d = last l' d.
Proof.
  intros Hl'. induction l as [|x l IH]; [reflexivity|].
  simpl. destruct (l ++ l')%list eqn:He; [|exact IH].
  apply app_eq_nil in He. destruct He as [_ He]. contradiction.
Qed.

Lemma last_piece_app (c : ascii) (a b : string) :
  contains (String c "") b = false ->
  Context.last_piece c (a ++ String c b) = b.
Proof.
  intros Hb. unfold Context.last_piece. rewrite split_app.
  rewrite last_app_nonempty by apply split_nonempty.
  now rewrite (split_without_separator c b Hb).
Qed.

(** [l[-1]] on a non-empty list is its last element. *)
Lemma getitem_last {A : Type} (l : list A) (d : A) :
  l <> [] -> Py.getitem l (-1) = Ret (last l d).
Proof.
  intros Hl.
  assert (Hn : nth_error l (length l - 1) = Some (last l d)).
  { induction l as [|x l IH]; [contradiction|].
    destruct l as [|y l]; [reflexivity|].
    replace (length (x :: y :: l) - 1)%nat with (S (length (y :: l) - 1))
      by (simpl; lia).
    cbn [nth_error]. rewrite IH by discriminate. reflexivity. }
  assert (Hlen : (0 < length l)%nat) by (destruct l; [contradiction | simpl; lia]).
  unfold Py.getitem. cbn [Z.ltb Z.compare].
  destruct (-1 + Z.of_nat (length l) <? 0) eqn:H1;
    [apply Z.ltb_lt in H1; lia|].
  destruct (Z.of_nat (length l) <=? -1 + Z.of_nat (length l)) eqn:H2;
    [apply Z.leb_le in H2; lia|].
  cbn [orb].
  replace (Z.to_nat (-1 + Z.of_nat (length l))) with (length l - 1)%nat by lia.
  now rewrite Hn.
Qed.

Lemma replace_absent (old new s : string) :
  old <> "" -> contains old s = false -> Context.replace old new s = s.
Proof.
  intros Hold. unfold Context.replace.
  destruct old as [|o old']; [contradiction|].
  induction s as [|c r IH]; [reflexivity|].
  cbn [contains Context.replace_from].
  destruct (String.prefix (String o old') (String c r)); [discriminate|].
  intros H. now rewrite (IH H).
Qed.

Lemma replace_in_empty (old new : string) :
  old <> "" -> Context.replace old new "" = "".
Proof. destruct old; [contradiction | reflexivity]. Qed.

Lemma lookup_set (d : Context.dict) (k v k' : string) :
  Context.lookup (Context.set d k v) k'
  = if k == k' then Some v else Context.lookup d k'.
Proof.
  induction d as [|[k0 v0] d IH]; simpl.
  - reflexivity.
  - destruct (k0 == k) eqn:E0; simpl.
    + apply String.eqb_eq in E0. subst k0.
      destruct (k == k'); reflexivity.
    + rewrite IH. destruct (k0 == k') eqn:E1; [|reflexivity].
      apply String.eqb_eq in E1. subst k0. now rewrite String.eqb_sym, E0.
Qed.

Lemma keys_set (d : Context.dict) (k v : string) :
  Context.keys (Context.set d k v)
  = if str_in k (Context.keys d) then Context.keys d
    else (Context.keys d ++ [k])%list.
Proof.
  unfold Context.keys, str_in. induction d as [|[k0 v0] d IH]; simpl.
  - reflexivity.
  - rewrite (String.eqb_sym k k0). destruct (k0 == k); simpl.
    + reflexivity.
    + rewrite IH. destruct (existsb (String.eqb k) (map fst d)); reflexivity.
Qed.

(* ================================================================== *)
(** ** [context.py]: [translate_with_context] *)

Section ContextFacts.

Variable mt : string -> string.
Variable strip : string -> string.
Variable capitalize : string -> string.

Local Abbreviation translate := (Context.translate_with_context mt strip capitalize).
Local Abbreviation translation_of := (Context.translation_of mt strip capitalize).
Local Abbreviation remove_unwanted := (Context.remove_unwanted strip).

Lemma translate_closed_form (text : string) (context : option string) :
  translate text context = Context.Ok (translation_of text context).
Proof.
  unfold Context.translate_with_context, Context.translation_of,
    Context.post_process, Context.last_piece.
  destruct (Context.truthy context); [|reflexivity].
  destruct (contains "." (mt (Context.full_text text context)));
    [|reflexivity].
  rewrite (getitem_last _ EmptyString) by apply split_nonempty.
  reflexivity.
Qed.

Lemma full_text_without_context (text : string) (context : option string) :
  Context.truthy context = false -> Context.full_text text context = text.
Proof.
  unfold Context.full_text. destruct context as [c|]; [|reflexivity].
  now intros ->.
Qed.

Lemma remove_unwanted_fixed (s : string) :
  strip s = s ->
  (forall w, In w Context.unwanted -> contains w s = false) ->
  remove_unwanted s = s.
Proof.
  intros Hs Hw. unfold Context.remove_unwanted.
  assert (Hne : forall w, In w Context.unwanted -> w <> "").
  { intros w Hin ->. simpl in Hin.
    repeat (destruct Hin as [Hin|Hin]; [discriminate Hin|]). exact Hin. }
  revert Hw Hne. generalize Context.unwanted.
  induction l as [|w l IH]; intros Hw Hne; [reflexivity|].
  simpl. rewrite replace_absent.
  - rewrite Hs. apply IH; intros u Hu; [apply Hw | apply Hne]; now right.
  - apply Hne. now left.
  - apply Hw. now left.
Qed.

(** X10: [translate_with_context] never raises: the index [-1] into the
    pieces of [split('.')] is always in range.  Without a context ([None]
    or the empty string) it returns the output of the model on the text
    itself, untouched. *)
Theorem translate_never_raises (text : string) (context : option string) :
  (exists r, translate text context = Context.Ok r) /\
  (Context.truthy context = false ->
   translate text context = Context.Ok (mt text)).
Proof.
  rewrite translate_closed_form. split; [eauto|].
  intros Hc. unfold Context.translation_of.
  now rewrite Hc, (full_text_without_context text context Hc).
Qed.

Lemma translation_after_last_stop (text : string) (context : option string)
      (a b : string) :
  Context.truthy context = true ->
  mt (Context.full_text text context) = a ++ "." ++ b ->
  contains "." b = false ->
  translation_of text context = capitalize (remove_unwanted (strip b)).
Proof.
  intros Hc Hraw Hb. unfold Context.translation_of. rewrite Hc, Hraw.
  assert (Hdot : contains "." (a ++ "." ++ b) = true).
  { apply contains_substring. now exists a, b. }
  rewrite Hdot. change ("." ++ b) with (String "."%char b).
  now rewrite (last_piece_app "."%char a b Hb).
Qed.

(** X11: with a context, only what follows the last full stop of the
    model's output is kept: writing the output as [a ++ "." ++ b] with no
    full stop in [b], the result is [b] stripped, cleaned of the unwanted
    words and capitalised, whatever [a] is. *)
Theorem translate_keeps_last_sentence (text : string) (context : option string)
        (a b : string) :
  Context.truthy context = true ->
  mt (Context.full_text text context) = a ++ "." ++ b ->
  contains "." b = false ->
  translate text context
  = Context.Ok (capitalize (remove_unwanted (strip b))).
Proof.
  intros Hc Hraw Hb. rewrite translate_closed_form.
  now rewrite (translation_after_last_stop text context a b Hc Hraw Hb).
Qed.

(** X12: with a context, a model output that ends with a full stop gives
    the empty string (for [strip] and [capitalize] that leave the empty
    string alone, as Python's do). *)
Theorem translate_trailing_stop_empty (text : string) (context : option string)
        (a : string) :
  strip "" = "" -> capitalize "" = "" ->
  Context.truthy context = true ->
  mt (Context.full_text text context) = a ++ "." ->
  translate text context = Context.Ok "".
Proof.
  intros Hs Hcap Hc Hraw.
  rewrite translate_closed_form.
  rewrite (translation_after_last_stop text context a "" Hc Hraw eq_refl).
  rewrite Hs.
  assert (He : remove_unwanted "" = "").
  { unfold Context.remove_unwanted. induction Context.unwanted as [|w l IH].
    - reflexivity.
    - cbn [fold_left]. destruct w; cbn; now rewrite Hs. }
  now rewrite He, Hcap.
Qed.

(** X13: with a context, a model output without any full stop, without
    any of the unwanted words and unchanged by [strip] is returned as it
    is, capitalised. *)
Theorem translate_clean_output (text : string) (context : option string) :
  Context.truthy context = true ->
  contains "." (mt (Context.full_text text context)) = false ->
  (forall w, In w Context.unwanted ->
             contains w (mt (Context.full_text text context)) = false) ->
  strip (mt (Context.full_text text context))
  = mt (Context.full_text text context) ->
  translate text context
  = Context.Ok (capitalize (mt (Context.full_text text context))).
Proof.
  intros Hc Hdot Hw Hs. rewrite translate_closed_form.
  unfold Context.translation_of. rewrite Hc, Hdot.
  now rewrite (remove_unwanted_fixed _ Hs Hw).
Qed.

End ContextFacts.

(* ================================================================== *)
(** ** [context.py]: [analyze_ambiguous_pairs] *)

Section PairFacts.

Variable mt : string -> string.
Variable strip : string -> string.
Variable capitalize : string -> string.

Local Abbreviation translation_of := (Context.translation_of mt strip capitalize).
Local Abbreviation analyze := (Context.analyze_ambiguous_pairs mt strip capitalize).
Local Abbreviation pair_loop := (Context.pair_loop mt strip capitalize).
Local Abbreviation variation_loop := (Context.variation_loop mt strip capitalize).
Local Abbreviation context_loop := (Context.context_loop mt strip capitalize).
Local Abbreviation context_dict := (Context.context_dict mt strip capitalize).
Local Abbreviation variation_result := (Context.variation_result mt strip capitalize).
Local Abbreviation pair_result := (Context.pair_result mt strip capitalize).

Lemma context_loop_closed_form (variation : string)
      (todo : list (option string)) : forall d,
  context_loop variation todo d = Context.Ok (context_dict variation todo d).
Proof.
  induction todo as [|c rest IH]; intros d; [reflexivity|].
  unfold Context.context_dict. cbn [Context.context_loop fold_left].
  destruct c as [c|]; [|apply IH].
  destruct (Context.truthy (Some c)); [|apply IH].
  rewrite translate_closed_form. cbn [Context.bind]. apply IH.
Qed.

Lemma variation_loop_closed_form (ctxs : list (option string))
      (todo : list string) : forall acc,
  variation_loop todo ctxs acc
  = Context.Ok (acc ++ map (variation_result ctxs) todo)%list.
Proof.
  induction todo as [|v rest IH]; intros acc.
  - simpl. now rewrite app_nil_r.
  - cbn [Context.variation_loop map]. rewrite translate_closed_form.
    cbn [Context.bind Context.set]. rewrite context_loop_closed_form.
    cbn [Context.bind]. rewrite IH. now rewrite <- app_assoc.
Qed.

(** The entry computed for a pair carrying both keys. *)
Lemma pair_loop_step (p : Context.Pair) (rest : list Context.Pair)
      (acc : list Context.PairResult) (s : string) (vars : list string) :
  Context.sentence p = Some s -> Context.variations p = Some vars ->
  pair_loop (p :: rest) acc
  = pair_loop rest (acc ++ [pair_result s vars (Context.contexts_of p)])%list.
Proof.
  intros Hs Hv. cbn [Context.pair_loop]. rewrite Hs, Hv.
  cbn [Context.getitem_key Context.bind].
  fold (Context.contexts_of p).
  rewrite variation_loop_closed_form. reflexivity.
Qed.

Lemma pair_loop_keyed (todo : list Context.Pair) : forall acc,
  (forall p, In p todo -> Context.keyed p) ->
  exists res,
    pair_loop todo acc = Context.Ok (acc ++ res)%list /\
    Forall2 (fun p r =>
               exists s vars,
                 Context.sentence p = Some s /\
                 Context.variations p = Some vars /\
                 r = pair_result s vars (Context.contexts_of p))
            todo res.
Proof.
  induction todo as [|p rest IH]; intros acc Hk.
  - exists []. split; [simpl; now rewrite app_nil_r | constructor].
  - destruct (Hk p (or_introl eq_refl)) as [Hs Hv].
    destruct (Context.sentence p) as [s|] eqn:Es; [|contradiction].
    destruct (Context.variations p) as [vars|] eqn:Ev; [|contradiction].
    rewrite (pair_loop_step p rest acc s vars Es Ev).
    destruct (IH (acc ++ [pair_result s vars (Context.contexts_of p)])%list
                 (fun q Hq => Hk q (or_intror Hq))) as [res [Hrun Hall]].
    exists (pair_result s vars (Context.contexts_of p) :: res).
    split.
    + rewrite Hrun. now rewrite <- app_assoc.
    + constructor; [|exact Hall]. exists s, vars. auto.
Qed.

Lemma pair_loop_key_error (good : list Context.Pair) (bad : Context.Pair)
      (rest : list Context.Pair) : forall acc,
  (forall p, In p good -> Context.keyed p) ->
  Context.sentence bad = None \/ Context.variations bad = None ->
  pair_loop (good ++ bad :: rest) acc
  = Context.Err (Context.KeyError
                   (match Context.sentence bad with
                    | None => "sentence"
                    | Some _ => "variations"
                    end)).
Proof.
  induction good as [|p good IH]; intros acc Hk Hbad.
  - cbn [app Context.pair_loop].
    destruct (Context.sentence bad) as [s|]; [|reflexivity].
    destruct Hbad as [Hbad|Hbad]; [discriminate|]. now rewrite Hbad.
  - destruct (Hk p (or_introl eq_refl)) as [Hs Hv].
    destruct (Context.sentence p) as [s|] eqn:Es; [|contradiction].
    destruct (Context.variations p) as [vars|] eqn:Ev; [|contradiction].
    cbn [app]. rewrite (pair_loop_step p _ acc s vars Es Ev).
    apply IH; auto. intros q Hq. apply Hk. now right.
Qed.

Lemma context_dict_cons (variation : string) (c : option string)
      (rest : list (option string)) (d : Context.dict) :
  context_dict variation (c :: rest) d
  = context_dict variation rest
      (match c with
       | Some k =>
           if Context.truthy c
           then Context.set d k (translation_of variation c)
           else d
       | None => d
       end).
Proof. reflexivity. Qed.

Lemma context_dict_lookup (variation : string) (todo : list (option string)) :
  forall d k,
  Context.lookup (context_dict variation todo d) k
  = if existsb (Context.selects k) todo
    then Some (translation_of variation (Some k))
    else Context.lookup d k.
Proof.
  induction todo as [|c rest IH]; intros d k; [reflexivity|].
  rewrite context_dict_cons. cbn [existsb].
  destruct c as [c|]; [|apply IH].
  unfold Context.selects at 1.
  destruct (Context.truthy (Some c)) eqn:Ht; [|apply IH].
  rewrite IH, lookup_set. cbn [andb].
  destruct (c == k) eqn:Ec; cbn [orb].
  - apply String.eqb_eq in Ec. subst c.
    destruct (existsb (Context.selects k) rest); reflexivity.
  - reflexivity.
Qed.

Lemma context_dict_keys (variation : string) (todo : list (option string)) :
  forall d k0,
  NoDup (Context.keys d) -> hd_error (Context.keys d) = Some k0 ->
  NoDup (Context.keys (context_dict variation todo d)) /\
  (length (Context.keys (context_dict variation todo d))
   <= length (Context.keys d) + length todo)%nat /\
  hd_error (Context.keys (context_dict variation todo d)) = Some k0.
Proof.
  induction todo as [|c rest IH]; intros d k0 Hd Hhd.
  - simpl. repeat split; [exact Hd | lia | exact Hhd].
  - rewrite context_dict_cons. cbn [length].
    assert (Hskip :
      NoDup (Context.keys (context_dict variation rest d)) /\
      (length (Context.keys (context_dict variation rest d))
       <= length (Context.keys d) + S (length rest))%nat /\
      hd_error (Context.keys (context_dict variation rest d)) = Some k0).
    { destruct (IH d k0 Hd Hhd) as [H1 [H2 H3]]. repeat split; auto. lia. }
    destruct c as [c|]; [|exact Hskip].
    destruct (Context.truthy (Some c)); [|exact Hskip].
    clear Hskip.
    set (d' := Context.set d c (translation_of variation (Some c))).
    assert (Hk : Context.keys d' = Context.keys d \/
                 Context.keys d' = (Context.keys d ++ [c])%list /\
                 ~ In c (Context.keys d)).
    { unfold d'. rewrite keys_set.
      destruct (str_in c (Context.keys d)) eqn:Hin; [now left|].
      right. split; [reflexivity|]. now apply str_in_false. }
    assert (Hd' : NoDup (Context.keys d')).
    { destruct Hk as [->|[-> Hn]]; [exact Hd|].
      apply NoDup_app; [exact Hd | repeat constructor; simpl; tauto |].
      intros x Hx [<-|[]]. contradiction. }
    assert (Hhd' : hd_error (Context.keys d') = Some k0).
    { destruct Hk as [->|[-> _]]; [exact Hhd|].
      destruct (Context.keys d); [discriminate | exact Hhd]. }
    destruct (IH d' k0 Hd' Hhd') as [H1 [H2 H3]].
    split; [exact H1|]. split; [|exact H3].
    destruct Hk as [Hk|[Hk _]]; rewrite Hk in H2;
      [|rewrite length_app in H2; simpl in H2]; lia.
Qed.

Lemma variation_results_originals (ctxs : list (option string))
      (vars : list string) :
  map Context.original (map (variation_result ctxs) vars) = vars.
Proof.
  induction vars as [|v vars IH]; [reflexivity|].
  simpl. now rewrite IH.
Qed.

(** X14: when every pair carries the keys ['sentence'] and ['variations']
    ([contexts] may be absent), [analyze_ambiguous_pairs] returns one
    entry per pair, in order, whose [base_case] is the pair's sentence and
    whose results list the pair's variations, in order, as [original]. *)
Theorem analyze_pairs_structure (pairs : list Context.Pair) :
  (forall p, In p pairs -> Context.keyed p) ->
  exists res,
    analyze pairs = Context.Ok res /\
    map (fun r => Some (Context.base_case r)) res
    = map Context.sentence pairs /\
    map (fun r => Some (map Context.original (Context.results r))) res
    = map Context.variations pairs.
Proof.
  intros Hk. destruct (pair_loop_keyed pairs [] Hk) as [res [Hrun Hall]].
  exists res. split; [exact Hrun|].
  clear Hrun Hk. induction Hall as [|p r ps rs [s [vars [Hs [Hv ->]]]] _ IH].
  - split; reflexivity.
  - destruct IH as [IH1 IH2]. cbn [map]. rewrite IH1, IH2, Hs, Hv.
    cbn [Context.pair_result Context.base_case Context.results].
    now rewrite variation_results_originals.
Qed.

(** X15: the first pair lacking ['sentence'] or ['variations'] makes
    [analyze_ambiguous_pairs] raise [KeyError], for ['sentence'] when that
    key is absent and for ['variations'] otherwise; nothing is returned
    for the pairs before it. *)
Theorem analyze_pairs_key_error (good : list Context.Pair) (bad : Context.Pair)
        (rest : list Context.Pair) :
  (forall p, In p good -> Context.keyed p) ->
  Context.sentence bad = None \/ Context.variations bad = None ->
  analyze (good ++ bad :: rest)
  = Context.Err (Context.KeyError
                   (match Context.sentence bad with
                    | None => "sentence"
                    | Some _ => "variations"
                    end)).
Proof. intros Hk Hbad. now apply pair_loop_key_error. Qed.

(** X16: in the result for a variation, the translations dictionary maps
    every non-empty context of the pair to the translation of the
    variation in that context, ['no_context'] to the translation without
    context, and nothing else; a context that is itself the string
    ['no_context'] takes the place of the translation without context. *)
Theorem translations_lookup (pairs : list Context.Pair) :
  (forall p, In p pairs -> Context.keyed p) ->
  exists res,
    analyze pairs = Context.Ok res /\
    Forall2
      (fun p r =>
         forall vr, In vr (Context.results r) ->
         forall k,
           Context.lookup (Context.translations vr) k
           = if existsb (Context.selects k) (Context.contexts_of p)
             then Some (translation_of (Context.original vr) (Some k))
             else if k == "no_context"
                  then Some (translation_of (Context.original vr) None)
                  else None)
      pairs res.
Proof.
  intros Hk. destruct (pair_loop_keyed pairs [] Hk) as [res [Hrun Hall]].
  exists res. split; [exact Hrun|].
  clear Hrun Hk. induction Hall as [|p r ps rs [s [vars [Hs [Hv ->]]]] _ IH];
    constructor; [|exact IH].
  intros vr Hin k. cbn [Context.pair_result Context.results] in Hin.
  apply in_map_iff in Hin. destruct Hin as [v [<- _]].
  cbn [Context.variation_result Context.translations Context.original].
  rewrite context_dict_lookup. cbn [Context.lookup].
  rewrite (String.eqb_sym "no_context" k). reflexivity.
Qed.

(** X17: the translations dictionary of a variation has ['no_context'] as
    its first key, no key twice, and at most one key per context of the
    pair besides ['no_context']. *)
Theorem translations_keys (pairs : list Context.Pair) :
  (forall p, In p pairs -> Context.keyed p) ->
  exists res,
    analyze pairs = Context.Ok res /\
    Forall2
      (fun p r =>
         forall vr, In vr (Context.results r) ->
           hd_error (Context.keys (Context.translations vr))
           = Some "no_context" /\
           NoDup (Context.keys (Context.translations vr)) /\
           (length (Context.keys (Context.translations vr))
            <= 1 + length (Context.contexts_of p))%nat)
      pairs res.
Proof.
  intros Hk. destruct (pair_loop_keyed pairs [] Hk) as [res [Hrun Hall]].
  exists res. split; [exact Hrun|].
  clear Hrun Hk. induction Hall as [|p r ps rs [s [vars [Hs [Hv ->]]]] _ IH];
    constructor; [|exact IH].
  intros vr Hin. cbn [Context.pair_result Context.results] in Hin.
  apply in_map_iff in Hin. destruct Hin as [v [<- _]].
  cbn [Context.variation_result Context.translations].
  destruct (context_dict_keys v (Context.contexts_of p)
              [("no_context", translation_of v None)] "no_context")
    as [H1 [H2 H3]].
  - simpl. repeat constructor. simpl. tauto.
  - reflexivity.
  - auto.
Qed.

End PairFacts.

(* ================================================================== *)
(** ** [context.py]: instances *)

Lemma translate_keeps_last_sentence_witness :
  Context.translate_with_context Context.mt_ship Context.ascii_strip
    Context.ascii_capitalize "배가 깨끗하다" (Some "항구에 도착했습니다.")
  = Context.Ok "The ship is clean".
Proof.
  apply (translate_keeps_last_sentence Context.mt_ship Context.ascii_strip
           Context.ascii_capitalize "배가 깨끗하다" (Some "항구에 도착했습니다.")
           "I arrived at the port" " The ship is clean");
    reflexivity.
Defined.

Lemma translate_trailing_stop_empty_witness :
  Context.translate_with_context Context.mt_stop Context.ascii_strip
    Context.ascii_capitalize "배가 깨끗하다" (Some "항구에 도착했습니다.")
  = Context.Ok "".
Proof.
  apply (translate_trailing_stop_empty Context.mt_stop Context.ascii_strip
           Context.ascii_capitalize "배가 깨끗하다" (Some "항구에 도착했습니다.")
           "The ship is clean");
    reflexivity.
Defined.

Lemma translate_clean_output_witness :
  Context.translate_with_context Context.mt_plain Context.ascii_strip
    Context.ascii_capitalize "배가 깨끗하다" (Some "항구에 도착했습니다.")
  = Context.Ok "The ship is clean".
Proof.
  apply (translate_clean_output Context.mt_plain Context.ascii_strip
           Context.ascii_capitalize "배가 깨끗하다" (Some "항구에 도착했습니다."));
    try reflexivity.
  intros w Hw. simpl in Hw.
  repeat (destruct Hw as [<-|Hw]; [reflexivity|]). destruct Hw.
Defined.

Lemma analyze_pairs_structure_witness :
  exists res,
    Context.analyze_ambiguous_pairs Context.mt_ship Context.ascii_strip
      Context.ascii_capitalize [Context.snow_pair] = Context.Ok res /\
    map (fun r => Some (Context.base_case r)) res
    = map Context.sentence [Context.snow_pair] /\
    map (fun r => Some (map Context.original (Context.results r))) res
    = map Context.variations [Context.snow_pair].
Proof.
  apply (analyze_pairs_structure Context.mt_ship Context.ascii_strip
           Context.ascii_capitalize [Context.snow_pair]).
  intros p [<-|[]]. split; discriminate.
Defined.

Lemma analyze_pairs_key_error_witness :
  Context.analyze_ambiguous_pairs Context.mt_ship Context.ascii_strip
    Context.ascii_capitalize
    ([Context.snow_pair] ++ Context.mkPair (Some "test") None None :: [])
  = Context.Err (Context.KeyError "variations").
Proof.
  apply (analyze_pairs_key_error Context.mt_ship Context.ascii_strip
           Context.ascii_capitalize [Context.snow_pair]
           (Context.mkPair (Some "test") None None) []).
  - intros p [<-|[]]. split; discriminate.
  - right. reflexivity.
Defined.

Lemma translations_lookup_witness :
  exists res,
    Context.analyze_ambiguous_pairs Context.mt_ship Context.ascii_strip
      Context.ascii_capitalize [Context.snow_pair] = Context.Ok res /\
    Forall2
      (fun p r =>
         forall vr, In vr (Context.results r) ->
         forall k,
           Context.lookup (Context.translations vr) k
           = if existsb (Context.selects k) (Context.contexts_of p)
             then Some (Context.translation_of Context.mt_ship Context.ascii_strip
                          Context.ascii_capitalize (Context.original vr) (Some k))
             else if k == "no_context"
                  then Some (Context.translation_of Context.mt_ship Context.ascii_strip
                               Context.ascii_capitalize (Context.original vr) None)
                  else None)
      [Context.snow_pair] res.
Proof.
  apply (translations_lookup Context.mt_ship Context.ascii_strip
           Context.ascii_capitalize [Context.snow_pair]).
  intros p [<-|[]]. split; discriminate.
Defined.

Lemma translations_keys_witness :
  exists res,
    Context.analyze_ambiguous_pairs Context.mt_ship Context.ascii_strip
      Context.ascii_capitalize [Context.snow_pair] = Context.Ok res /\
    Forall2
      (fun p r =>
         forall vr, In vr (Context.results r) ->
           hd_error (Context.keys (Context.translations vr))
           = Some "no_context" /\
           NoDup (Context.keys (Context.translations vr)) /\
           (length (Context.keys (Context.translations vr))
            <= 1 + length (Context.contexts_of p))%nat)
      [Context.snow_pair] res.
Proof.
  apply (translations_keys Context.mt_ship Context.ascii_strip
           Context.ascii_capitalize [Context.snow_pair]).
  intros p [<-|[]]. split; discriminate.
Defined.

Lemma translate_never_raises_witness :
  Context.translate_with_context Context.mt_stop Context.ascii_strip
    Context.ascii_capitalize "배가 깨끗하다" (Some "")
  = Context.Ok "The ship is clean.".
Proof.
  apply (proj2 (translate_never_raises Context.mt_stop Context.ascii_strip
                  Context.ascii_capitalize "배가 깨끗하다" (Some ""))).
  reflexivity.
Defined.

Lemma structure_by_substring_witness :
  _analyze_structure doc_cooked = SV.
Proof.
  apply (proj2 (proj1 (proj2 (structure_by_substring doc_cooked)))).
  split; [|split].
  - exists (tok 1 "food" "NOUN" "NN" "nsubjpass" 4 ["Sing"]).
    split; [simpl; tauto|]. exists "n", "pass". reflexivity.
  - exists (tok 4 "cooked" "VERB" "VBN" "ROOT" 4 []).
    split; [simpl; tauto | reflexivity].
  - intros [t [Hin Hsub]]. apply contains_substring in Hsub.
    simpl in Hin.
    repeat (destruct Hin as [<-|Hin]; [discriminate Hsub|]).
    exact Hin.
Defined.
